(** * TAUROS chat front-end: the conversational request lifecycle

    A shallow embedding of the chat screen of the refactored React Native
    application (component [ChatScreen], its [handleSend] callback) and of
    the API utilities it calls ([chatAPI.sendMessage], class [APIError]).

    The screen is an event-driven, single-threaded component.  Its React
    state ([message], [currentResponse], [isLoading], [chatHistory]) lives
    in a record; the environment it talks to (the wall clock, the HTTP
    client, the alert dialogs) is threaded through the same record.  An
    [async] function is split at its [await]: the part that runs when the
    button is pressed, and the continuation that runs when the promise
    settles.  JavaScript exceptions are modelled by a completion type with
    a [Normal] and a [Throw] case, and [try]/[catch]/[finally] are written
    out over it. *)

From Stdlib Require Import ZArith NArith List String Ascii Bool Lia.
From Stdlib Require Import Sorted DecimalString DecimalZ.
Import ListNotations.

Local Open Scope Z_scope.

(* ================================================================== *)
(** ** JavaScript values used by the screen *)

Module JS.

(** A JavaScript string is a sequence of UTF-16 code units. *)
Definition char16 := N.
Definition jsstring := list char16.

(** String literals of the source (all of them are ASCII). *)
Definition lit (s : string) : jsstring :=
  map N_of_ascii (list_ascii_of_string s).

Fixpoint eqb (a b : jsstring) : bool :=
  match a, b with
  | [], [] => true
  | x :: a', y :: b' => N.eqb x y && eqb a' b'
  | _, _ => false
  end.

(** The code units removed by [String.prototype.trim]: the WhiteSpace
    and LineTerminator productions of ECMAScript. *)
Definition between (lo hi c : N) : bool :=
  N.leb lo c && N.leb c hi.

Definition isWhiteSpace (c : char16) : bool :=
  between 0x09 0x0D c          (* TAB, LF, VT, FF, CR *)
  || N.eqb c 0x20              (* SPACE *)
  || N.eqb c 0xA0              (* NO-BREAK SPACE *)
  || N.eqb c 0x1680            (* OGHAM SPACE MARK *)
  || between 0x2000 0x200A c   (* EN QUAD .. HAIR SPACE *)
  || between 0x2028 0x2029 c   (* LINE / PARAGRAPH SEPARATOR *)
  || N.eqb c 0x202F            (* NARROW NO-BREAK SPACE *)
  || N.eqb c 0x205F            (* MEDIUM MATHEMATICAL SPACE *)
  || N.eqb c 0x3000            (* IDEOGRAPHIC SPACE *)
  || N.eqb c 0xFEFF.           (* ZERO WIDTH NO-BREAK SPACE *)

Fixpoint trimStart (s : jsstring) : jsstring :=
  match s with
  | [] => []
  | c :: rest => if isWhiteSpace c then trimStart rest else s
  end.

Definition trimEnd (s : jsstring) : jsstring := rev (trimStart (rev s)).

Definition trim (s : jsstring) : jsstring := trimEnd (trimStart s).

(** ToBoolean on a string: only the empty string is falsy. *)
Definition truthy (s : jsstring) : bool :=
  match s with [] => false | _ :: _ => true end.

(** ToBoolean on an integral number: only zero is falsy. *)
Definition truthy_number (z : Z) : bool := negb (z =? 0).

(** [v || d] where [v] is a string or [undefined]. *)
Definition or_string (v : option jsstring) (d : jsstring) : jsstring :=
  match v with
  | Some s => if truthy s then s else d
  | None => d
  end.

(** [v || d] where [v] is a number or [undefined]. *)
Definition or_number (v : option Z) (d : Z) : Z :=
  match v with
  | Some z => if truthy_number z then z else d
  | None => d
  end.

(** [Number.prototype.toString] on an integral time value: plain
    decimal digits, with a leading minus sign below zero. *)
Definition toString (z : Z) : jsstring :=
  lit (NilEmpty.string_of_int (Z.to_int z)).

End JS.

Import JS.

(* ================================================================== *)
(** ** utils/api: request and response types, [APIError], [chatAPI] *)

Module ChatResponse.
(** [interface ChatResponse { response: string; timestamp?: string }];
    at run time either field of the decoded body may be missing. *)
Record t := mk { response : option jsstring; timestamp : option jsstring }.
End ChatResponse.

Module AxiosError.
(** What the catch clause of [sendMessage] reads off an axios error:
    [error.message], [error.response?.status] and [error.code]. *)
Record t := mk {
  message : jsstring;
  response_status : option Z;
  code : option jsstring
}.
End AxiosError.

Module APIError.

Record t := mk {
  message : jsstring;
  statusCode : Z;
  code : option jsstring
}.

Definition ECONNABORTED : jsstring := lit "ECONNABORTED".

Definition isTimeoutError (this : t) : bool :=
  match code this with
  | Some c => JS.eqb c ECONNABORTED
  | None => false
  end.

Definition isNetworkError (this : t) : bool :=
  (statusCode this =? 0) || negb (truthy_number (statusCode this)).

Definition isServerError (this : t) : bool :=
  statusCode this >=? 500.

Definition isClientError (this : t) : bool :=
  (statusCode this >=? 400) && (statusCode this <? 500).

Definition getUserMessage (this : t) : jsstring :=
  if isTimeoutError this then lit "Timeout della richiesta. Riprova."
  else if isNetworkError this then lit "Impossibile connettersi al server."
  else if isServerError this then lit "Errore interno del server."
  else if isClientError this then lit "Richiesta non valida."
  else lit "Errore nel contatto con TAUROS.".

End APIError.

(** Why the promise returned by [apiClient.post('/chat', ...)] rejected:
    with an error for which [axios.isAxiosError] holds, or with anything
    else. *)
Inductive Rejection :=
| IsAxiosError (error : AxiosError.t)
| NotAxiosError.

(** How that promise settles.  [data] is [response.data]; it is [None]
    when the decoded body is [null]. *)
Inductive PostOutcome :=
| Fulfilled (data : option ChatResponse.t)
| Rejected (reason : Rejection).

(** Values a [throw] can carry inside [handleSend]'s [try] block. *)
Inductive Thrown :=
| ThrownAPIError (e : APIError.t)
| ThrownTypeError.

(** Completion of a piece of JavaScript: normal, or abrupt by [throw]. *)
Inductive Completion (A : Type) :=
| Normal (a : A)
| Throw (e : Thrown).
Arguments Normal {A} a.
Arguments Throw {A} e.

Definition bind {A B} (c : Completion A) (k : A -> Completion B)
  : Completion B :=
  match c with
  | Normal a => k a
  | Throw e => Throw e
  end.

Notation "x <- c ;; k" := (bind c (fun x => k))
  (at level 61, c at next level, right associativity).

Module chatAPI.

(** [sendMessage] from the point where the awaited POST settles. *)
Definition sendMessage (settled : PostOutcome)
  : Completion (option ChatResponse.t) :=
  match settled with
  | Fulfilled data => Normal data
  | Rejected (IsAxiosError error) =>
      Throw (ThrownAPIError
               (APIError.mk
                  (or_string (Some (AxiosError.message error))
                             (lit "Network error"))
                  (or_number (AxiosError.response_status error) 0)
                  (AxiosError.code error)))
  | Rejected NotAxiosError =>
      Throw (ThrownAPIError
               (APIError.mk (lit "Unknown error occurred") 0 None))
  end.

End chatAPI.

(* ================================================================== *)
(** ** screens/ChatScreen *)

Module ChatMessage.
(** [interface ChatMessage]; [timestamp] is the time value of the
    [Date], in milliseconds since the epoch. *)
Record t := mk {
  id : jsstring;
  message : jsstring;
  response : jsstring;
  timestamp : Z
}.
End ChatMessage.

(** The four [useState] cells of the component, followed by the part of
    the environment the component acts on. *)
Record World := mkWorld {
  message : jsstring;
  currentResponse : jsstring;
  isLoading : bool;
  chatHistory : list ChatMessage.t;
  now : Z;
    (* the reading of the device clock, in milliseconds since the
       epoch; time passes by [elapse], and the clock can be set, to a
       later or to an earlier reading, by [setClock] *)
  pending : list jsstring;
    (* [handleSend] activations suspended at their [await], oldest
       first, each with its captured [messageToSend] *)
  posted : list jsstring;
    (* messages handed to [chatAPI.sendMessage] so far *)
  alerts : list (jsstring * jsstring)
    (* [Alert.alert(title, text)] dialogs raised so far *)
}.

Definition setMessage (v : jsstring) (w : World) : World :=
  mkWorld v (currentResponse w) (isLoading w) (chatHistory w)
          (now w) (pending w) (posted w) (alerts w).

Definition setCurrentResponse (v : jsstring) (w : World) : World :=
  mkWorld (message w) v (isLoading w) (chatHistory w)
          (now w) (pending w) (posted w) (alerts w).

Definition setIsLoading (v : bool) (w : World) : World :=
  mkWorld (message w) (currentResponse w) v (chatHistory w)
          (now w) (pending w) (posted w) (alerts w).

(** [setChatHistory(f)], the functional form of the state setter. *)
Definition setChatHistory (f : list ChatMessage.t -> list ChatMessage.t)
  (w : World) : World :=
  mkWorld (message w) (currentResponse w) (isLoading w) (f (chatHistory w))
          (now w) (pending w) (posted w) (alerts w).

Definition elapse (ms : N) (w : World) : World :=
  mkWorld (message w) (currentResponse w) (isLoading w) (chatHistory w)
          (now w + Z.of_N ms) (pending w) (posted w) (alerts w).

Definition setPending (v : list jsstring) (w : World) : World :=
  mkWorld (message w) (currentResponse w) (isLoading w) (chatHistory w)
          (now w) v (posted w) (alerts w).

(** The call [chatAPI.sendMessage(m)] up to its [await]: the request is
    issued and the caller is suspended. *)
Definition callSendMessage (m : jsstring) (w : World) : World :=
  mkWorld (message w) (currentResponse w) (isLoading w) (chatHistory w)
          (now w) (pending w ++ [m]) (posted w ++ [m]) (alerts w).

Definition alert (title text : jsstring) (w : World) : World :=
  mkWorld (message w) (currentResponse w) (isLoading w) (chatHistory w)
          (now w) (pending w) (posted w) (alerts w ++ [(title, text)]).

Module ChatScreen.

Definition validationNotice : jsstring * jsstring :=
  (lit "Attenzione", lit "Inserisci un messaggio prima di inviare.").

Definition placeholder : jsstring := lit "Risposta non disponibile".

Definition genericError : jsstring := lit "Errore nel contatto con TAUROS.".

(** [handleSend], from the press to the [await]. *)
Definition handleSend (w : World) : World :=
  if negb (truthy (trim (message w))) then
    alert (fst validationNotice) (snd validationNotice) w
  else
    let messageToSend := trim (message w) in
    let w := setMessage [] w in
    let w := setIsLoading true w in
    callSendMessage messageToSend w.

(** [response.response]: a property read, which throws a [TypeError]
    on [null]. *)
Definition get_response (response : option ChatResponse.t)
  : Completion (option jsstring) :=
  match response with
  | Some body => Normal (ChatResponse.response body)
  | None => Throw ThrownTypeError
  end.

(** The [try] block after the [await].  [Date.now()] reads the clock;
    [new Date()] reads it again, [gap] milliseconds later. *)
Definition tryBlock (messageToSend : jsstring) (settled : PostOutcome)
  (gap : N) (w : World) : Completion World :=
  response <- chatAPI.sendMessage settled ;;
  field <- get_response response ;;
  let responseText := or_string field placeholder in
  let w := setCurrentResponse responseText w in
  let id := toString (now w) in
  let w := elapse gap w in
  let newMessage :=
    ChatMessage.mk id messageToSend responseText (now w) in
  Normal (setChatHistory (fun prev => prev ++ [newMessage]) w).

(** The [catch] clause ([console.error] leaves no trace in the
    state and is left out). *)
Definition catchBlock (error : Thrown) (w : World) : World :=
  let errorMessage :=
    match error with
    | ThrownAPIError e => APIError.getUserMessage e
    | ThrownTypeError => genericError
    end in
  let w := setCurrentResponse errorMessage w in
  alert (lit "Errore") errorMessage w.

(** [handleSend], from the [await] to its end. *)
Definition handleSend_resume (messageToSend : jsstring)
  (settled : PostOutcome) (gap : N) (w : World) : World :=
  let w :=
    match tryBlock messageToSend settled gap w with
    | Normal w' => w'
    | Throw error => catchBlock error w
    end in
  setIsLoading false w.

Definition handleMessageChange (text : jsstring) (w : World) : World :=
  setMessage text w.

End ChatScreen.

(** What can happen to the mounted screen. *)
Inductive Event :=
| Elapse (ms : N)
    (* time passes *)
| ChangeText (text : jsstring)
    (* the user edits the input; [text] is what [onChangeText] receives *)
| PressSend
    (* the user taps the send button *)
| Settle (settled : PostOutcome) (gap : N).
    (* the oldest outstanding POST settles *)

Definition step (w : World) (e : Event) : World :=
  match e with
  | Elapse ms => elapse ms w
  | ChangeText text =>
      (* [editable={!isLoading}] *)
      if isLoading w then w else ChatScreen.handleMessageChange text w
  | PressSend =>
      (* [disabled={isLoading}] *)
      if isLoading w then w else ChatScreen.handleSend w
  | Settle settled gap =>
      match pending w with
      | [] => w
      | m :: rest =>
          ChatScreen.handleSend_resume m settled gap (setPending rest w)
      end
  end.

Definition run (w : World) (events : list Event) : World :=
  fold_left step events w.

(** The screen as first mounted, at clock reading [t0]. *)
Definition mount (t0 : Z) : World :=
  mkWorld [] [] false [] t0 [] [] [].

Definition Reachable (w : World) : Prop :=
  exists t0 events, w = run (mount t0) events.

(** A session: the user types a text and taps send, the request stays
    outstanding for [wait] milliseconds, then settles. *)
Module Send.
Record t := mk {
  text : jsstring;
  wait : N;
  settled : PostOutcome;
  gap : N
}.

Definition events (s : t) : list Event :=
  [ChangeText (text s); PressSend; Elapse (wait s);
   Settle (settled s) (gap s)].

(** A send that passes validation and is answered with the body
    [body]. *)
Definition ok (text : jsstring) (wait : N) (body : ChatResponse.t)
  (gap : N) : t :=
  mk text wait (Fulfilled (Some body)) gap.
End Send.

Definition session (sends : list Send.t) : list Event :=
  flat_map Send.events sends.

(** Events that are not the settling of a request. *)
Definition quiet (e : Event) : bool :=
  match e with
  | Settle _ _ => false
  | _ => true
  end.

(* ================================================================== *)
(** ** The error taxonomy of the specification *)

Inductive ErrorKind :=
| Timeout
| NetworkUnreachable
| ServerFault
| InvalidRequest
| Unknown.

Module Classifier.

(** The priority rules as the specification words them, over the
    timeout flag and the status code (if any) of the failure. *)
Definition classify (timeoutFlag : bool) (status : option Z) : ErrorKind :=
  if timeoutFlag then Timeout
  else match status with
       | None => NetworkUnreachable
       | Some s =>
           if s =? 0 then NetworkUnreachable
           else if 500 <=? s then ServerFault
           else if (400 <=? s) && (s <? 500) then InvalidRequest
           else Unknown
       end.

(** The message attached to each kind, in the wording the source
    uses. *)
Definition user_message (k : ErrorKind) : jsstring :=
  match k with
  | Timeout => lit "Timeout della richiesta. Riprova."
  | NetworkUnreachable => lit "Impossibile connettersi al server."
  | ServerFault => lit "Errore interno del server."
  | InvalidRequest => lit "Richiesta non valida."
  | Unknown => lit "Errore nel contatto con TAUROS."
  end.

(** The timeout flag and the status code of a rejection, read off the
    transport error the way [sendMessage] reads them. *)
Definition timeoutFlag (reason : Rejection) : bool :=
  match reason with
  | IsAxiosError error =>
      match AxiosError.code error with
      | Some c => JS.eqb c APIError.ECONNABORTED
      | None => false
      end
  | NotAxiosError => false
  end.

Definition status (reason : Rejection) : option Z :=
  match reason with
  | IsAxiosError error => AxiosError.response_status error
  | NotAxiosError => None
  end.

End Classifier.

(** The request axios gives up on after the configured 30000 ms. *)
Definition timeout_of_30000ms : AxiosError.t :=
  AxiosError.mk (lit "timeout of 30000ms exceeded") None
                (Some APIError.ECONNABORTED).


(* ================================================================== *)
(** ** Vocabulary for the statements *)

(** The two send states the component can be in: no request
    outstanding, or exactly one, with the input already cleared. *)
Definition Idle (w : World) : Prop :=
  isLoading w = false /\ pending w = [].

Definition Sending (w : World) : Prop :=
  isLoading w = true /\ message w = [] /\ exists m, pending w = [m].

(** A text passes the validation of [handleSend]. *)
Definition valid (text : jsstring) : Prop := truthy (trim text) = true.

(** A text is empty or made of white space only. *)
Definition blank (text : jsstring) : Prop :=
  forallb isWhiteSpace text = true.

(** The user types [text] and taps send. *)
Definition submit (text : jsstring) : list Event :=
  [ChangeText text; PressSend].

(** A send that passes validation and is answered with a body. *)
Definition successful (s : Send.t) : Prop :=
  valid (Send.text s) /\ exists body, Send.settled s = Fulfilled (Some body).

(** The reply read the way the specification words it: the reply field
    of the body, or the placeholder if that field is absent. *)
Definition reply_field_or_placeholder_if_absent (body : ChatResponse.t)
  : jsstring :=
  match ChatResponse.response body with
  | Some reply => reply
  | None => ChatScreen.placeholder
  end.

(** The ids and the timestamps of the log, in log order. *)
Definition ids (w : World) : list jsstring :=
  map ChatMessage.id (chatHistory w).

Definition timestamps (w : World) : list Z :=
  map ChatMessage.timestamp (chatHistory w).

(** The entries one event adds to the log. *)
Definition appended (w : World) (e : Event) : list ChatMessage.t :=
  match e, pending w with
  | Settle (Fulfilled (Some body)) gap, m :: _ =>
      [ChatMessage.mk (toString (now w)) m
         (or_string (ChatResponse.response body) ChatScreen.placeholder)
         (now w + Z.of_N gap)]
  | _, _ => []
  end.

(** The text the screen shows after a request has settled. *)
Definition shown (settled : PostOutcome) : jsstring :=
  match settled with
  | Fulfilled (Some body) =>
      or_string (ChatResponse.response body) ChatScreen.placeholder
  | Fulfilled None => ChatScreen.genericError
  | Rejected reason =>
      Classifier.user_message
        (Classifier.classify (Classifier.timeoutFlag reason)
                             (Classifier.status reason))
  end.

(** The first version of the screen (the root-level [ChatScreen.tsx],
    which the application no longer mounts): two state cells and a
    [handleSend] that posts whatever the input holds. *)
Module LegacyChatScreen.

Record State := mk {
  message : jsstring;
  response : option jsstring;
  posted : list jsstring
}.

(** [handleSend], from the press to the [await]. *)
Definition handleSend (s : State) : State :=
  mk (message s) (response s) (posted s ++ [message s]).

(** [handleSend], from the [await] to its end; [data_response] is
    [res.data.response]. *)
Definition handleSend_resume (settled : option (option jsstring))
  (s : State) : State :=
  match settled with
  | Some data_response => mk (message s) data_response (posted s)
  | None =>
      mk (message s) (Some (lit "Errore nel contatto con Tauros."))
         (posted s)
  end.

End LegacyChatScreen.

(** The log is in time order, and no entry is dated after the present. *)
Definition Chronological (w : World) : Prop :=
  StronglySorted Z.le (timestamps w)
  /\ Forall (fun t => t <= now w) (timestamps w).

(** The ids of the log are the renderings of strictly increasing clock
    readings, all of them before [bound]. *)
Definition IdsBelow (bound : Z) (w : World) : Prop :=
  exists readings,
    ids w = map toString readings
    /\ StronglySorted Z.lt readings
    /\ Forall (fun r => r < bound) readings.

(* ================================================================== *)
(** ** screens/ChatScreen: what the component renders *)

Module ChatView.

Definition greeting : jsstring :=
  lit "Ciao! Sono TAUROS, il tuo assistente AI. Come posso aiutarti oggi?".

(** The response area: [currentResponse ? currentResponse : greeting]. *)
Definition responseArea (w : World) : jsstring :=
  if truthy (currentResponse w) then currentResponse w else greeting.

(** The props of the text input. *)
Definition inputValue (w : World) : jsstring := message w.
Definition inputEditable (w : World) : bool := negb (isLoading w).

(** The props and the caption of the send button. *)
Definition sendDisabled (w : World) : bool := isLoading w.
Definition sendLabel (w : World) : jsstring :=
  if isLoading w then lit "Invio..." else lit "Invia".

End ChatView.

(** The error dialogs among the alerts raised so far. *)
Definition errorNotices (w : World) : list (jsstring * jsstring) :=
  filter (fun a => JS.eqb (fst a) (lit "Errore")) (alerts w).

(** Boolean readings of a send: its text passes validation; its
    request is answered with a body. *)
Definition passes (s : Send.t) : bool := truthy (trim (Send.text s)).

Definition answered (o : PostOutcome) : bool :=
  match o with
  | Fulfilled (Some _) => true
  | _ => false
  end.

(** A message as the chat client is meant to receive it: not empty, and
    with no white space left to trim. *)
Definition trimmed_nonempty (m : jsstring) : Prop :=
  m <> [] /\ trim m = m.

Definition WellFormed (w : World) : Prop :=
  Forall trimmed_nonempty (pending w)
  /\ Forall trimmed_nonempty (posted w)
  /\ Forall (fun x => trimmed_nonempty (ChatMessage.message x)
                      /\ ChatMessage.response x <> [])
            (chatHistory w).

(* ================================================================== *)
(** ** screens/SettingsScreen *)

Module SettingsScreen.

(** An [Alert.alert(title, message, buttons?)] call: the title, the
    message, and the captions of the buttons when they are given. *)
Definition Dialog : Type := jsstring * jsstring * option (list jsstring).

(** The three [useState] cells of the component, followed by what it
    has asked of its environment. *)
Record Screen := mkScreen {
  gptMode : bool;
  notifications : bool;
  darkMode : bool;
  dialogs : list Dialog;
    (* the alerts raised so far *)
  goBacks : nat
    (* the [navigation.goBack()] calls made so far *)
}.

(** The screen as first mounted. *)
Definition mounted : Screen := mkScreen true true true [] 0.

Definition setGptMode (v : bool) (s : Screen) : Screen :=
  mkScreen v (notifications s) (darkMode s) (dialogs s) (goBacks s).

Definition setNotifications (v : bool) (s : Screen) : Screen :=
  mkScreen (gptMode s) v (darkMode s) (dialogs s) (goBacks s).

Definition setDarkMode (v : bool) (s : Screen) : Screen :=
  mkScreen (gptMode s) (notifications s) v (dialogs s) (goBacks s).

Definition alert (d : Dialog) (s : Screen) : Screen :=
  mkScreen (gptMode s) (notifications s) (darkMode s) (dialogs s ++ [d])
           (goBacks s).

Definition goBack (s : Screen) : Screen :=
  mkScreen (gptMode s) (notifications s) (darkMode s) (dialogs s)
           (S (goBacks s)).

(** LATIN SMALL LETTER A WITH GRAVE, and the line feed. *)
Definition a_grave : char16 := 0xE0%N.
Definition LF : char16 := 0x0A%N.

Definition themeDialog : Dialog :=
  (lit "Modalit" ++ [a_grave] ++ lit " Tema",
   lit "La modalit" ++ [a_grave] ++ lit " tema verr" ++ [a_grave]
       ++ lit " applicata al prossimo riavvio dell'app.",
   None).

Definition aboutDialog : Dialog :=
  (lit "TAUROS v1.0.0",
   lit "Assistente AI sviluppato per fornire supporto intelligente e conversazioni naturali."
       ++ [LF; LF] ++ lit "Sviluppato con React Native & TypeScript.",
   Some [lit "OK"]).

Definition handleGptModeToggle (value : bool) (s : Screen) : Screen :=
  setGptMode value s.

Definition handleNotificationsToggle (value : bool) (s : Screen) : Screen :=
  setNotifications value s.

Definition handleDarkModeToggle (value : bool) (s : Screen) : Screen :=
  let s := setDarkMode value s in
  alert themeDialog s.

Definition handleAboutPress (s : Screen) : Screen :=
  alert aboutDialog s.

Definition handleBackPress (s : Screen) : Screen :=
  goBack s.

Inductive ItemType := switch | button | info.

(** [interface SettingItem]. *)
Record SettingItem := mkItem {
  id : jsstring;
  title : jsstring;
  description : option jsstring;
  type : ItemType;
  value : option bool;
  onPress : option (Screen -> Screen);
  onValueChange : option (bool -> Screen -> Screen)
}.

Definition settingsData (s : Screen) : list SettingItem :=
  [ mkItem (lit "gpt-mode")
           (lit "Modalit" ++ [a_grave] ++ lit " GPT")
           (Some (lit "Abilita le funzionalit" ++ [a_grave]
                  ++ lit " avanzate di intelligenza artificiale"))
           switch (Some (gptMode s)) None (Some handleGptModeToggle);
    mkItem (lit "notifications")
           (lit "Notifiche")
           (Some (lit "Ricevi notifiche per nuovi messaggi e aggiornamenti"))
           switch (Some (notifications s)) None
           (Some handleNotificationsToggle);
    mkItem (lit "dark-mode")
           (lit "Tema Scuro")
           (Some (lit "Utilizza il tema scuro per una migliore esperienza visiva"))
           switch (Some (darkMode s)) None (Some handleDarkModeToggle);
    mkItem (lit "about")
           (lit "Informazioni")
           (Some (lit "Versione app e dettagli sviluppatore"))
           button None (Some handleAboutPress) None ].

(** The two colours the thumb of a switch can take. *)
Inductive ThumbColor := text_primary | text_secondary.

(** What [renderSettingItem] returns: a row with a switch, a row that
    can be pressed, or nothing ([None] for [null]). *)
Inductive Row :=
| SwitchRow (key title : jsstring) (description : option jsstring)
    (value : option bool) (onValueChange : option (bool -> Screen -> Screen))
    (thumbColor : ThumbColor)
| ButtonRow (key title : jsstring) (description : option jsstring)
    (onPress : option (Screen -> Screen)).

(** [item.description && <Text>...</Text>]: the description line is
    there only for a non-empty description. *)
Definition descriptionLine (d : option jsstring) : option jsstring :=
  match d with
  | Some t => if truthy t then Some t else None
  | None => None
  end.

Definition renderSettingItem (item : SettingItem) : option Row :=
  match type item with
  | switch =>
      Some (SwitchRow (id item) (title item)
              (descriptionLine (description item))
              (value item) (onValueChange item)
              (match value item with
               | Some true => text_primary
               | _ => text_secondary
               end))
  | button =>
      Some (ButtonRow (id item) (title item)
              (descriptionLine (description item)) (onPress item))
  | info => None
  end.

(** [settingsData.map(renderSettingItem)]. *)
Definition rows (s : Screen) : list (option Row) :=
  map renderSettingItem (settingsData s).

Definition key_of (r : Row) : jsstring :=
  match r with
  | SwitchRow key _ _ _ _ _ => key
  | ButtonRow key _ _ _ => key
  end.

(** The rendered row with a given key, if there is one. *)
Fixpoint rowOf (key : jsstring) (l : list (option Row)) : option Row :=
  match l with
  | [] => None
  | Some r :: l' => if JS.eqb (key_of r) key then Some r else rowOf key l'
  | None :: l' => rowOf key l'
  end.

(** The position a rendered switch shows. *)
Definition switchValue (key : jsstring) (s : Screen) : option bool :=
  match rowOf key (rows s) with
  | Some (SwitchRow _ _ _ v _ _) => v
  | _ => None
  end.

(** What the user can do on the screen: flip the switch of a row,
    press a row, press the back button.  The component reacts through
    the handler the rendered element carries. *)
Inductive Action :=
| Flip (key : jsstring) (value : bool)
| Press (key : jsstring)
| Back.

Definition act (s : Screen) (a : Action) : Screen :=
  match a with
  | Flip key v =>
      match rowOf key (rows s) with
      | Some (SwitchRow _ _ _ _ (Some handler) _) => handler v s
      | _ => s
      end
  | Press key =>
      match rowOf key (rows s) with
      | Some (ButtonRow _ _ _ (Some handler)) => handler s
      | _ => s
      end
  | Back => handleBackPress s
  end.

Definition run (s : Screen) (actions : list Action) : Screen :=
  fold_left act actions s.

(** The actions that end in an [Alert.alert]. *)
Definition raisesDialog (a : Action) : bool :=
  match a with
  | Flip key _ => JS.eqb key (lit "dark-mode")
  | Press key => JS.eqb key (lit "about")
  | Back => false
  end.

Definition isBack (a : Action) : bool :=
  match a with Back => true | _ => false end.

End SettingsScreen.

(** The first version of the chat screen, as an event-driven component:
    [onChangeText={setMessage}], the send button, and the settling of a
    request (any of the outstanding ones). *)
Module LegacyEvents.

Inductive Event :=
| ChangeText (text : jsstring)
| PressSend
| Settle (settled : option (option jsstring)).

Definition step (s : LegacyChatScreen.State) (e : Event)
  : LegacyChatScreen.State :=
  match e with
  | ChangeText text =>
      LegacyChatScreen.mk text (LegacyChatScreen.response s)
                          (LegacyChatScreen.posted s)
  | PressSend => LegacyChatScreen.handleSend s
  | Settle settled => LegacyChatScreen.handleSend_resume settled s
  end.

Definition run (s : LegacyChatScreen.State) (events : list Event)
  : LegacyChatScreen.State :=
  fold_left step events s.

Definition isPress (e : Event) : bool :=
  match e with PressSend => true | _ => false end.

Definition isChange (e : Event) : bool :=
  match e with ChangeText _ => true | _ => false end.

End LegacyEvents.

(** The dialog an action of the settings screen raises, when it raises
    one. *)
Definition settingsDialogOf (a : SettingsScreen.Action)
  : SettingsScreen.Dialog :=
  match a with
  | SettingsScreen.Press _ => SettingsScreen.aboutDialog
  | _ => SettingsScreen.themeDialog
  end.

(** The ids of the log render clock readings that never decrease along
    the log, each taken no later than the timestamp of its entry, and
    none of them in the future. *)
Definition Stamped (w : World) : Prop :=
  exists readings,
    ids w = map toString readings
    /\ Forall2 (fun r x => r <= ChatMessage.timestamp x)
               readings (chatHistory w)
    /\ StronglySorted Z.le readings
    /\ Forall (fun r => r <= now w) readings.

(* ================================================================== *)
(** ** The device clock *)

(** [Date.now()] and [new Date()] read the clock of the device, which
    the user or the network can set, forwards or back, at any moment
    between two events of the screen. *)
Definition setClock (t : Z) (w : World) : World :=
  mkWorld (message w) (currentResponse w) (isLoading w) (chatHistory w)
          t (pending w) (posted w) (alerts w).

Inductive WallEvent :=
| OnScreen (e : Event)
    (* an event of the screen *)
| ClockSet (t : Z).
    (* the clock is set to the reading [t] *)

Definition wall_step (w : World) (e : WallEvent) : World :=
  match e with
  | OnScreen e => step w e
  | ClockSet t => setClock t w
  end.

Definition wall_run (w : World) (events : list WallEvent) : World :=
  fold_left wall_step events w.

(** The events of the screen in a run, the settings of the clock left
    out. *)
Definition screen_events (events : list WallEvent) : list Event :=
  flat_map (fun e => match e with OnScreen e => [e] | ClockSet _ => [] end)
           events.

(** No setting of the clock, in the run of [events] from [w], puts it
    back. *)
Fixpoint clock_forward (w : World) (events : list WallEvent) : bool :=
  match events with
  | [] => true
  | e :: rest =>
      match e with
      | ClockSet t => now w <=? t
      | OnScreen _ => true
      end
      && clock_forward (wall_step w e) rest
  end.

(** An event creates an exchange when it settles an outstanding request
    with a body. *)
Definition creates (w : World) (e : WallEvent) : bool :=
  match e with
  | OnScreen (Settle (Fulfilled (Some _)) _) =>
      match pending w with
      | [] => false
      | _ :: _ => true
      end
  | _ => false
  end.

(** The readings of the clock at the moments the exchanges of a run are
    created, in the order of creation. *)
Fixpoint creation_readings (w : World) (events : list WallEvent) : list Z :=
  match events with
  | [] => []
  | e :: rest =>
      (if creates w e then [now w] else [])
      ++ creation_readings (wall_step w e) rest
  end.

(** Everything in a state that does not come from a reading of the
    clock. *)
Definition core (w : World)
  : jsstring * jsstring * bool * list jsstring * list jsstring
    * list (jsstring * jsstring) :=
  (message w, currentResponse w, isLoading w, pending w, posted w, alerts w).

(** Two states that differ at most in what was read off the clock: the
    clock itself, and the ids and timestamps of the log. *)
Definition SameButClock (w1 w2 : World) : Prop :=
  core w1 = core w2
  /\ Forall2 (fun x y =>
                ChatMessage.message x = ChatMessage.message y
                /\ ChatMessage.response x = ChatMessage.response y)
             (chatHistory w1) (chatHistory w2).

(* ================================================================== *)
(** ** Facts about the JavaScript primitives *)

Section StringFacts.

Lemma eqb_eq (a b : jsstring) : JS.eqb a b = true <-> a = b.
Proof.
  revert b; induction a as [|x a IH]; intros [|y b]; simpl;
    try (split; [discriminate | congruence]); [tauto|].
  rewrite andb_true_iff, N.eqb_eq, IH.
  split; [intros [-> ->]; reflexivity | intros [= -> ->]; auto].
Qed.

Lemma lit_inj (s1 s2 : string) : lit s1 = lit s2 -> s1 = s2.
Proof.
  unfold lit; intros H.
  rewrite <- (string_of_list_ascii_of_string s1).
  rewrite <- (string_of_list_ascii_of_string s2).
  f_equal.
  generalize dependent (list_ascii_of_string s2).
  induction (list_ascii_of_string s1) as [|a l IH]; intros [|b l'] H;
    simpl in H; try discriminate; [reflexivity|].
  injection H as Hab Hl.
  f_equal; [|auto].
  rewrite <- (ascii_N_embedding a), <- (ascii_N_embedding b).
  now rewrite Hab.
Qed.

Lemma toString_inj (a b : Z) : toString a = toString b -> a = b.
Proof.
  unfold toString; intros H%lit_inj.
  apply DecimalZ.to_int_inj.
  apply (f_equal NilEmpty.int_of_string) in H.
  rewrite !NilEmpty.isi in H.
  congruence.
Qed.

Lemma trimStart_blank (s : jsstring) :
  trimStart s = [] <-> forallb isWhiteSpace s = true.
Proof.
  induction s as [|c s IH]; simpl; [tauto|].
  destruct (isWhiteSpace c); simpl; [exact IH|].
  split; discriminate.
Qed.

Lemma forallb_rev {A} (p : A -> bool) (l : list A) :
  forallb p (rev l) = forallb p l.
Proof.
  induction l as [|a l IH]; simpl; [reflexivity|].
  rewrite forallb_app, IH; simpl.
  rewrite andb_true_r; apply andb_comm.
Qed.

(** What [trimStart] leaves is empty or starts with a code unit that
    is not white space. *)
Lemma trimStart_head (s : jsstring) :
  forallb isWhiteSpace (trimStart s) = true -> trimStart s = [].
Proof.
  induction s as [|c s IH]; simpl; [reflexivity|].
  destruct (isWhiteSpace c) eqn:E; [exact IH|].
  simpl; rewrite E; discriminate.
Qed.

(** [trim] yields the empty string exactly on the blank strings. *)
Lemma trim_blank (s : jsstring) :
  trim s = [] <-> forallb isWhiteSpace s = true.
Proof.
  unfold trim, trimEnd.
  rewrite <- trimStart_blank.
  split.
  - intros H.
    apply (f_equal (@rev _)) in H; rewrite rev_involutive in H; simpl in H.
    apply trimStart_blank in H; rewrite forallb_rev in H.
    now apply trimStart_head.
  - intros ->; reflexivity.
Qed.

Lemma truthy_trim (s : jsstring) :
  truthy (trim s) = negb (forallb isWhiteSpace s).
Proof.
  destruct (forallb isWhiteSpace s) eqn:E; simpl.
  - apply trim_blank in E; now rewrite E.
  - destruct (trim s) eqn:T; [|reflexivity].
    apply trim_blank in T; congruence.
Qed.

End StringFacts.

Example toString_zero : toString 0 = lit "0".
Proof. reflexivity. Qed.

Example toString_epoch_ms : toString 1700000000000 = lit "1700000000000".
Proof. reflexivity. Qed.

Example trim_example :
  trim (lit "  Hello, how are you? ") = lit "Hello, how are you?".
Proof. reflexivity. Qed.

(* ================================================================== *)
(** ** The error classifier *)

Section ClassifierFacts.

Import Classifier.

Lemma user_message_inj (k k' : ErrorKind) :
  user_message k = user_message k' -> k = k'.
Proof.
  destruct k, k'; intros H; try reflexivity;
    apply lit_inj in H; discriminate H.
Qed.

(** [getUserMessage] is the priority table, read on the fields of the
    [APIError]. *)
Lemma getUserMessage_classify (e : APIError.t) :
  APIError.getUserMessage e =
  user_message (classify (APIError.isTimeoutError e)
                         (Some (APIError.statusCode e))).
Proof.
  unfold APIError.getUserMessage, classify.
  destruct (APIError.isTimeoutError e); [reflexivity|].
  unfold APIError.isNetworkError, APIError.isServerError,
    APIError.isClientError, truthy_number.
  rewrite negb_involutive, orb_diag, !Z.geb_leb.
  destruct (APIError.statusCode e =? 0); [reflexivity|].
  destruct (500 <=? APIError.statusCode e); [reflexivity|].
  destruct ((400 <=? APIError.statusCode e)
            && (APIError.statusCode e <? 500)); reflexivity.
Qed.

(** [status || 0] does not change the class of a status. *)
Lemma classify_or_number (flag : bool) (st : option Z) :
  classify flag (Some (or_number st 0)) = classify flag st.
Proof.
  unfold classify, or_number, truthy_number.
  destruct flag; [reflexivity|].
  destruct st as [s|]; [|reflexivity].
  destruct (s =? 0) eqn:E; simpl; [reflexivity|].
  now rewrite E.
Qed.

Lemma sendMessage_rejected (reason : Rejection) :
  exists e,
    chatAPI.sendMessage (Rejected reason) = Throw (ThrownAPIError e)
    /\ APIError.isTimeoutError e = timeoutFlag reason
    /\ APIError.statusCode e = or_number (status reason) 0.
Proof.
  destruct reason as [error|]; simpl; eexists; repeat split.
Qed.

Lemma rejected_user_message (reason : Rejection) (e : APIError.t) :
  chatAPI.sendMessage (Rejected reason) = Throw (ThrownAPIError e) ->
  APIError.getUserMessage e =
  user_message (classify (timeoutFlag reason) (status reason)).
Proof.
  intros H.
  destruct (sendMessage_rejected reason) as (e' & He' & Hflag & Hst).
  rewrite He' in H; injection H as ->.
  rewrite getUserMessage_classify, Hflag, Hst.
  now rewrite classify_or_number.
Qed.

End ClassifierFacts.

(** C3.  Every failed call is classified, and by the first matching
    rule of the priority list: the timeout flag gives Timeout; otherwise
    a missing (or zero) status gives NetworkUnreachable; otherwise a
    status of 500 or more gives ServerFault; otherwise a status from 400
    to 499 gives InvalidRequest; otherwise Unknown.  The message shown
    is the fixed message of that kind, and no other kind has that
    message. *)
Theorem C3_classifier_priority_order (reason : Rejection) :
  exists e,
    chatAPI.sendMessage (Rejected reason) = Throw (ThrownAPIError e)
    /\ APIError.getUserMessage e =
       Classifier.user_message
         (Classifier.classify (Classifier.timeoutFlag reason)
                              (Classifier.status reason))
    /\ (forall k,
          Classifier.user_message k = APIError.getUserMessage e ->
          k = Classifier.classify (Classifier.timeoutFlag reason)
                                  (Classifier.status reason))
    /\ APIError.getUserMessage e =
       Classifier.user_message
         (Classifier.classify (APIError.isTimeoutError e)
                              (Some (APIError.statusCode e))).
Proof.
  destruct (sendMessage_rejected reason) as (e & He & _).
  exists e.
  pose proof (rejected_user_message reason e He) as Hmsg.
  repeat split; auto.
  - intros k Hk. apply user_message_inj. congruence.
  - apply getUserMessage_classify.
Qed.

Example classify_transport_failure :
  APIError.getUserMessage (APIError.mk (lit "Network Error") 0 None)
  = Classifier.user_message NetworkUnreachable.
Proof. reflexivity. Qed.

Example classify_timeout :
  APIError.getUserMessage
    (APIError.mk (lit "timeout of 30000ms exceeded") 0
                 (Some APIError.ECONNABORTED))
  = Classifier.user_message Timeout.
Proof. reflexivity. Qed.

Example classify_500 :
  APIError.getUserMessage (APIError.mk (lit "boom") 500 None)
  = Classifier.user_message ServerFault.
Proof. reflexivity. Qed.

Example classify_404 :
  APIError.getUserMessage (APIError.mk (lit "missing") 404 None)
  = Classifier.user_message InvalidRequest.
Proof. reflexivity. Qed.

Example classify_302 :
  APIError.getUserMessage (APIError.mk (lit "moved") 302 None)
  = Classifier.user_message Unknown.
Proof. reflexivity. Qed.

(* ================================================================== *)
(** ** The send controller: one step at a time *)

Section StepFacts.

Import ChatScreen.

Lemma run_app (w : World) (a b : list Event) :
  run w (a ++ b) = run (run w a) b.
Proof. apply fold_left_app. Qed.

Lemma run_cons (w : World) (e : Event) (l : list Event) :
  run w (e :: l) = run (step w e) l.
Proof. reflexivity. Qed.

Lemma elapse_elapse (a b : N) (w : World) :
  elapse b (elapse a w) = elapse (a + b) w.
Proof.
  unfold elapse; simpl; f_equal. rewrite N2Z.inj_add. lia.
Qed.

Lemma elapse_0 (w : World) : elapse 0 w = w.
Proof. destruct w; unfold elapse; simpl; f_equal; lia. Qed.

(** *** What [handleSend] does up to the [await] *)

Lemma handleSend_blank (w : World) :
  blank (message w) ->
  handleSend w = alert (fst validationNotice) (snd validationNotice) w.
Proof.
  unfold blank, handleSend; intros H.
  now rewrite truthy_trim, H.
Qed.

Lemma handleSend_valid (w : World) :
  valid (message w) ->
  handleSend w =
  callSendMessage (trim (message w))
                  (setIsLoading true (setMessage [] w)).
Proof.
  unfold valid, handleSend; intros H.
  now rewrite H.
Qed.

Lemma valid_or_blank (text : jsstring) : {valid text} + {blank text}.
Proof.
  unfold valid, blank. rewrite truthy_trim.
  destruct (forallb isWhiteSpace text); [right | left]; reflexivity.
Qed.

(** *** What [handleSend] does after the [await] *)

Lemma resume_fulfilled (m : jsstring) (body : ChatResponse.t) (gap : N)
  (w : World) :
  handleSend_resume m (Fulfilled (Some body)) gap w =
  let responseText := or_string (ChatResponse.response body) placeholder in
  setIsLoading false
    (setChatHistory
       (fun prev =>
          prev ++ [ChatMessage.mk (toString (now w)) m responseText
                                  (now w + Z.of_N gap)])
       (elapse gap (setCurrentResponse responseText w))).
Proof. reflexivity. Qed.

Lemma resume_null_body (m : jsstring) (gap : N) (w : World) :
  handleSend_resume m (Fulfilled None) gap w =
  setIsLoading false
    (alert (lit "Errore") genericError
           (setCurrentResponse genericError w)).
Proof. reflexivity. Qed.

Lemma resume_rejected (m : jsstring) (reason : Rejection) (gap : N)
  (w : World) :
  handleSend_resume m (Rejected reason) gap w =
  setIsLoading false
    (alert (lit "Errore") (shown (Rejected reason))
           (setCurrentResponse (shown (Rejected reason)) w)).
Proof.
  unfold handleSend_resume, tryBlock.
  destruct (sendMessage_rejected reason) as (e & He & _).
  pose proof (rejected_user_message reason e He) as Hmsg.
  rewrite He. unfold bind, catchBlock, shown; cbv beta iota.
  now rewrite Hmsg.
Qed.

Lemma resume_frame (m : jsstring) (o : PostOutcome) (gap : N) (w : World) :
  let w' := handleSend_resume m o gap w in
  isLoading w' = false
  /\ message w' = message w
  /\ pending w' = pending w
  /\ posted w' = posted w
  /\ currentResponse w' = shown o
  /\ now w <= now w'.
Proof.
  destruct o as [[body|]|reason].
  - rewrite resume_fulfilled; simpl; repeat split; lia.
  - rewrite resume_null_body; simpl; repeat split; lia.
  - rewrite resume_rejected; simpl; repeat split; lia.
Qed.

Lemma resume_history (m : jsstring) (o : PostOutcome) (gap : N)
  (w : World) :
  chatHistory (handleSend_resume m o gap w) =
  chatHistory w
  ++ match o with
     | Fulfilled (Some body) =>
         [ChatMessage.mk (toString (now w)) m
            (or_string (ChatResponse.response body) placeholder)
            (now w + Z.of_N gap)]
     | _ => []
     end.
Proof.
  destruct o as [[body|]|reason].
  - rewrite resume_fulfilled; reflexivity.
  - rewrite resume_null_body; simpl; now rewrite app_nil_r.
  - rewrite resume_rejected; simpl; now rewrite app_nil_r.
Qed.

(** Every event extends the log at its end, by [appended], and
    touches nothing that is already there. *)
Lemma step_history (w : World) (e : Event) :
  chatHistory (step w e) = chatHistory w ++ appended w e.
Proof.
  destruct e as [ms|text| |o gap].
  - unfold appended; simpl.
    destruct (pending w); now rewrite app_nil_r.
  - unfold appended; simpl.
    destruct (isLoading w), (pending w); simpl; now rewrite app_nil_r.
  - replace (appended w PressSend) with (@nil ChatMessage.t)
      by (unfold appended; now destruct (pending w)).
    rewrite app_nil_r; simpl.
    destruct (isLoading w); [reflexivity|].
    destruct (valid_or_blank (message w)) as [V|B].
    + now rewrite handleSend_valid.
    + now rewrite handleSend_blank.
  - unfold appended; simpl.
    destruct (pending w) as [|m rest] eqn:P.
    + destruct o as [[?|]|?]; now rewrite app_nil_r.
    + rewrite resume_history; simpl.
      destruct o as [[?|]|?]; reflexivity.
Qed.

Lemma step_clock (w : World) (e : Event) : now w <= now (step w e).
Proof.
  destruct e as [ms|text| |o gap]; simpl.
  - lia.
  - destruct (isLoading w); simpl; lia.
  - destruct (isLoading w); [lia|].
    destruct (valid_or_blank (message w)) as [V|B].
    + rewrite handleSend_valid by assumption. simpl; lia.
    + rewrite handleSend_blank by assumption. simpl; lia.
  - destruct (pending w) as [|m rest]; [lia|].
    pose proof (resume_frame m o gap (setPending rest w)) as F.
    simpl in F. tauto.
Qed.

End StepFacts.

(* ================================================================== *)
(** ** The send controller: its two states *)

Section SendStates.

Import ChatScreen.

Lemma mount_idle (t0 : Z) : Idle (mount t0).
Proof. split; reflexivity. Qed.

Lemma step_send_state (w : World) (e : Event) :
  Idle w \/ Sending w -> Idle (step w e) \/ Sending (step w e).
Proof.
  intros [[L P]|(L & M & m & P)].
  - (* no request outstanding *)
    destruct e as [ms|text| |o gap]; simpl; rewrite ?L, ?P.
    + left; split; assumption.
    + left; split; assumption.
    + destruct (valid_or_blank (message w)) as [V|B].
      * rewrite handleSend_valid by assumption.
        right; unfold Sending; simpl; rewrite P.
        split; [reflexivity|]. split; [reflexivity|].
        now exists (trim (message w)).
      * rewrite handleSend_blank by assumption.
        left; split; assumption.
    + left; split; assumption.
  - (* one request outstanding *)
    destruct e as [ms|text| |o gap]; simpl; rewrite ?L, ?P.
    + right; unfold Sending; simpl. split; [|split]; eauto.
    + right; unfold Sending. split; [|split]; eauto.
    + right; unfold Sending. split; [|split]; eauto.
    + left.
      pose proof (resume_frame m o gap (setPending [] w)) as F; simpl in F.
      split; tauto.
Qed.

Lemma run_send_state (events : list Event) (w : World) :
  Idle w \/ Sending w -> Idle (run w events) \/ Sending (run w events).
Proof.
  revert w; induction events as [|e events IH]; intros w H; [exact H|].
  rewrite run_cons. apply IH, step_send_state, H.
Qed.

Lemma reachable_send_state (w : World) :
  Reachable w -> Idle w \/ Sending w.
Proof.
  intros (t0 & events & ->).
  apply run_send_state; left; apply mount_idle.
Qed.

Lemma reachable_idle (w : World) :
  Reachable w -> isLoading w = false -> Idle w.
Proof.
  intros R L.
  destruct (reachable_send_state w R) as [I|(L' & _)]; [exact I|].
  congruence.
Qed.

(** While a request is outstanding the input and the button are
    disabled: nothing but the clock moves until the request settles. *)
Lemma quiet_while_loading (events : list Event) (w : World) :
  isLoading w = true -> forallb quiet events = true ->
  exists ms, run w events = elapse ms w.
Proof.
  revert w; induction events as [|e events IH]; intros w L Q.
  - exists 0%N. now rewrite elapse_0.
  - simpl in Q; apply andb_true_iff in Q as [Qe Q].
    rewrite run_cons.
    destruct e as [ms|text| |o gap]; simpl in *; try discriminate;
      rewrite ?L.
    + destruct (IH (elapse ms w) L Q) as (ms' & ->).
      exists (ms + ms')%N. apply elapse_elapse.
    + apply IH; assumption.
    + apply IH; assumption.
Qed.

Lemma submit_blank (w : World) (text : jsstring) :
  isLoading w = false -> blank text ->
  run w (submit text) =
  alert (fst validationNotice) (snd validationNotice) (setMessage text w).
Proof.
  intros L B. unfold submit, run; simpl. rewrite L; simpl. rewrite L.
  now apply handleSend_blank.
Qed.

Lemma submit_valid (w : World) (text : jsstring) :
  isLoading w = false -> valid text ->
  run w (submit text) =
  callSendMessage (trim text) (setIsLoading true (setMessage [] w)).
Proof.
  intros L V. unfold submit, run; simpl. rewrite L; simpl. rewrite L.
  now rewrite handleSend_valid.
Qed.

(** One whole send, from the tap to the settling of the request. *)
Lemma lifecycle (w : World) (text : jsstring) (events : list Event)
  (o : PostOutcome) (gap : N) :
  Idle w -> valid text -> forallb quiet events = true ->
  exists ms,
    run w (submit text ++ events ++ [Settle o gap]) =
    handleSend_resume (trim text) o gap
      (setPending []
         (elapse ms
            (callSendMessage (trim text)
               (setIsLoading true (setMessage [] w))))).
Proof.
  intros [L P] V Q.
  rewrite !run_app, (submit_valid w text L V).
  set (w1 := callSendMessage _ _).
  destruct (quiet_while_loading events w1 eq_refl Q) as (ms & ->).
  exists ms. unfold run; simpl. subst w1; simpl.
  now rewrite P.
Qed.

End SendStates.

(* ================================================================== *)
(** ** Validation, and the guard on the send button *)

(** C4.  A submit whose text is empty or white space only is rejected
    before the chat client is called: no request is issued or left
    outstanding, the loading flag keeps its value, the log and the
    current response are untouched, and (the button being enabled) the
    validation notice is raised. *)
Theorem C4_blank_submit_is_rejected (w : World) (text : jsstring) :
  blank text ->
  let w' := run w (submit text) in
  posted w' = posted w
  /\ pending w' = pending w
  /\ isLoading w' = isLoading w
  /\ chatHistory w' = chatHistory w
  /\ currentResponse w' = currentResponse w
  /\ (isLoading w = false ->
      alerts w' = alerts w ++ [ChatScreen.validationNotice])
  /\ ChatScreen.handleSend (setMessage text w) =
     alert (fst ChatScreen.validationNotice)
           (snd ChatScreen.validationNotice) (setMessage text w).
Proof.
  intros B w'; subst w'.
  destruct (isLoading w) eqn:L.
  - assert (run w (submit text) = w) as ->
        by (unfold run, submit; simpl; rewrite L; simpl; now rewrite L).
    rewrite L. repeat split; try discriminate.
    now apply handleSend_blank.
  - rewrite (submit_blank w text L B); simpl.
    repeat split; auto.
    now apply handleSend_blank.
Qed.

Lemma C4_witness :
  blank (lit "   ") /\
  let w' := run (mount 0) (submit (lit "   ")) in
  posted w' = [] /\ isLoading w' = false /\ chatHistory w' = []
  /\ alerts w' = [ChatScreen.validationNotice].
Proof.
  split; [reflexivity|].
  destruct (C4_blank_submit_is_rejected (mount 0) (lit "   ") eq_refl)
    as (P & _ & L & H & _ & A & _).
  split; [exact P|]. split; [exact L|]. split; [exact H|].
  exact (A eq_refl).
Defined.

Example empty_text_is_blank : blank [].
Proof. reflexivity. Qed.

(** The first version of the screen had no such check: it posted a
    blank input as it stood. *)
Example legacy_posts_blank_text :
  LegacyChatScreen.posted
    (LegacyChatScreen.handleSend (LegacyChatScreen.mk (lit "   ") None []))
  = [lit "   "].
Proof. reflexivity. Qed.

(** C7.  At most one request is outstanding in any reachable state; and
    while one is, a further submit changes nothing at all: not the log,
    not the current response, not the loading flag, and nothing is
    issued or kept for later.  Even a direct call of the handler in that
    state stops at the validation, the input having been cleared. *)
Theorem C7_one_send_in_flight (w : World) :
  Reachable w ->
  (List.length (pending w) <= 1)%nat
  /\ (isLoading w = true ->
      List.length (pending w) = 1%nat
      /\ step w PressSend = w
      /\ (forall text, run w (submit text) = w)
      /\ ChatScreen.handleSend w =
         alert (fst ChatScreen.validationNotice)
               (snd ChatScreen.validationNotice) w).
Proof.
  intros R.
  destruct (reachable_send_state w R) as [[L P]|(L & M & m & P)].
  - rewrite P; split; [simpl; lia|]. congruence.
  - rewrite P; split; [simpl; lia|]. intros _.
    split; [reflexivity|].
    split; [simpl; now rewrite L|].
    split.
    + intros text. unfold run, submit; simpl. rewrite L; simpl. now rewrite L.
    + apply handleSend_blank. now rewrite M.
Qed.

Lemma C7_witness :
  let w := run (mount 0) (submit (lit "Test")) in
  Reachable w /\ isLoading w = true
  /\ run w (submit (lit "again")) = w.
Proof.
  intros w.
  assert (R : Reachable w) by (exists 0, (submit (lit "Test")); reflexivity).
  split; [exact R|]. split; [reflexivity|].
  destruct (C7_one_send_in_flight w R) as (_ & H).
  destruct (H eq_refl) as (_ & _ & S & _).
  exact (S (lit "again")).
Defined.

(** C10.  A submit that passes validation clears the input at once,
    while the request is still outstanding; and when the request then
    fails the input is still empty: the text is not put back. *)
Theorem C10_input_cleared_at_submit (w : World) (text : jsstring)
  (events : list Event) (reason : Rejection) (gap : N) :
  Reachable w -> isLoading w = false -> valid text ->
  forallb quiet events = true ->
  let w1 := run w (submit text) in
  let w2 := run w (submit text ++ events ++ [Settle (Rejected reason) gap]) in
  (message w1 = [] /\ isLoading w1 = true /\ pending w1 = [trim text])
  /\ message (run w1 events) = []
  /\ (message w2 = [] /\ isLoading w2 = false /\ pending w2 = []).
Proof.
  intros R L V Q w1 w2.
  pose proof (reachable_idle w R L) as I.
  assert (H1 : message w1 = [] /\ isLoading w1 = true
               /\ pending w1 = [trim text]).
  { subst w1. rewrite (submit_valid w text L V); simpl.
    destruct I as [_ ->]. repeat split. }
  split; [exact H1|].
  destruct H1 as (M1 & L1 & P1).
  split.
  - destruct (quiet_while_loading events w1 L1 Q) as (ms & ->).
    exact M1.
  - subst w2.
    destruct (lifecycle w text events (Rejected reason) gap I V Q)
      as (ms & ->).
    match goal with
    | |- context [ChatScreen.handleSend_resume ?m ?o ?g ?x] =>
        pose proof (resume_frame m o g x) as F
    end.
    simpl in F. destruct F as (F1 & F2 & F3 & _).
    repeat split; assumption.
Qed.

Lemma C10_witness :
  let w2 := run (mount 0)
              (submit (lit "Test") ++ [Elapse 30000]
               ++ [Settle (Rejected (IsAxiosError timeout_of_30000ms)) 0]) in
  valid (lit "Test") /\ message w2 = [].
Proof.
  intros w2. split; [reflexivity|].
  assert (R : Reachable (mount 0)) by (exists 0, []; reflexivity).
  exact (proj1 (proj2 (proj2
    (C10_input_cleared_at_submit (mount 0) (lit "Test") [Elapse 30000]
       (IsAxiosError timeout_of_30000ms) 0%N R eq_refl eq_refl eq_refl)))).
Defined.

(* ================================================================== *)
(** ** A send that is answered, a send that fails *)

Section Outcomes.

Import ChatScreen.

Lemma send_fulfilled (w : World) (text : jsstring) (events : list Event)
  (body : ChatResponse.t) (gap : N) :
  Idle w -> valid text -> forallb quiet events = true ->
  exists ms,
    let w' := run w (submit text ++ events
                     ++ [Settle (Fulfilled (Some body)) gap]) in
    let reply := or_string (ChatResponse.response body) placeholder in
    chatHistory w' =
      chatHistory w
      ++ [ChatMessage.mk (toString (now w + Z.of_N ms)) (trim text) reply
                         (now w + Z.of_N ms + Z.of_N gap)]
    /\ currentResponse w' = reply
    /\ Idle w'
    /\ now w' = now w + Z.of_N ms + Z.of_N gap.
Proof.
  intros I V Q.
  destruct (lifecycle w text events (Fulfilled (Some body)) gap I V Q)
    as (ms & E).
  exists ms. cbv zeta. rewrite E, resume_fulfilled; simpl.
  repeat split.
Qed.

Lemma send_rejected (w : World) (text : jsstring) (events : list Event)
  (reason : Rejection) (gap : N) :
  Idle w -> valid text -> forallb quiet events = true ->
  let w' := run w (submit text ++ events ++ [Settle (Rejected reason) gap]) in
  chatHistory w' = chatHistory w
  /\ currentResponse w' = shown (Rejected reason)
  /\ Idle w'.
Proof.
  intros I V Q.
  destruct (lifecycle w text events (Rejected reason) gap I V Q)
    as (ms & E).
  cbv zeta. rewrite E, resume_rejected; simpl.
  repeat split.
Qed.

Lemma placeholder_not_empty : placeholder <> [].
Proof. discriminate. Qed.

End Outcomes.

(** C1, as amended.  When a text passes validation and the call is
    answered with a body, the log gains exactly one exchange; its
    message is the trimmed text; its response is the reply field of the
    body when that field is a non-empty string, and the placeholder when
    the field is absent or empty; and the current response is that same
    value. *)
Theorem C1_answered_send_appends_one_exchange (w : World) (text : jsstring)
  (events : list Event) (body : ChatResponse.t) (gap : N) :
  Reachable w -> isLoading w = false -> valid text ->
  forallb quiet events = true ->
  let w' := run w (submit text ++ events
                   ++ [Settle (Fulfilled (Some body)) gap]) in
  exists x,
    chatHistory w' = chatHistory w ++ [x]
    /\ ChatMessage.message x = trim text
    /\ currentResponse w' = ChatMessage.response x
    /\ (forall reply,
          ChatResponse.response body = Some reply -> reply <> [] ->
          ChatMessage.response x = reply)
    /\ (ChatResponse.response body = None
        \/ ChatResponse.response body = Some [] ->
        ChatMessage.response x = ChatScreen.placeholder).
Proof.
  intros R L V Q.
  destruct (send_fulfilled w text events body gap (reachable_idle w R L) V Q)
    as (ms & H & C & _).
  cbv zeta in *. eexists; split; [exact H|]. simpl.
  split; [reflexivity|]. split; [exact C|].
  split.
  - intros reply -> N. destruct reply; [congruence | reflexivity].
  - intros [-> | ->]; reflexivity.
Qed.

Lemma C1_witness :
  let body := ChatResponse.mk (Some (lit "I'm well.")) None in
  let w' := run (mount 0)
              (submit (lit "Hello, how are you?")
               ++ [] ++ [Settle (Fulfilled (Some body)) 0]) in
  valid (lit "Hello, how are you?")
  /\ exists x,
       chatHistory w' = [x]
       /\ ChatMessage.message x = lit "Hello, how are you?"
       /\ ChatMessage.response x = lit "I'm well."
       /\ currentResponse w' = lit "I'm well.".
Proof.
  intros body w'. split; [reflexivity|].
  assert (R : Reachable (mount 0)) by (exists 0, []; reflexivity).
  destruct (C1_answered_send_appends_one_exchange (mount 0)
              (lit "Hello, how are you?") [] body 0%N R eq_refl eq_refl
              eq_refl) as (x & H & M & C & P & _).
  exists x.
  assert (Rx : ChatMessage.response x = lit "I'm well.")
    by (apply P; [reflexivity | discriminate]).
  split; [exact H|]. split; [exact M|]. split; [exact Rx|].
  fold w' in C. now rewrite C.
Defined.

(** C1 as first stated fails on a body whose reply field is present
    but empty: the exchange does not carry that (empty) reply field. *)
Lemma C1_counterexample_empty_reply :
  let body := ChatResponse.mk (Some []) None in
  let w' := run (mount 0)
              (submit (lit "Hi") ++ [Settle (Fulfilled (Some body)) 0]) in
  valid (lit "Hi")
  /\ ~ (exists x,
          chatHistory w' = chatHistory (mount 0) ++ [x]
          /\ ChatMessage.message x = trim (lit "Hi")
          /\ ChatMessage.response x
             = reply_field_or_placeholder_if_absent body
          /\ currentResponse w' = ChatMessage.response x).
Proof.
  intros body w'. split; [reflexivity|].
  intros (x & H & _ & Rx & _).
  vm_compute in H. injection H as <-.
  vm_compute in Rx. discriminate Rx.
Qed.

(** C9.  A body whose reply field is the empty string is shown, and
    logged, as the placeholder text, which is not the empty string. *)
Theorem C9_empty_reply_becomes_placeholder (w : World) (text : jsstring)
  (events : list Event) (body : ChatResponse.t) (gap : N) :
  Reachable w -> isLoading w = false -> valid text ->
  forallb quiet events = true ->
  ChatResponse.response body = Some [] ->
  let w' := run w (submit text ++ events
                   ++ [Settle (Fulfilled (Some body)) gap]) in
  exists x,
    chatHistory w' = chatHistory w ++ [x]
    /\ ChatMessage.response x = ChatScreen.placeholder
    /\ currentResponse w' = ChatScreen.placeholder
    /\ ChatScreen.placeholder <> [].
Proof.
  intros R L V Q E.
  destruct (send_fulfilled w text events body gap (reachable_idle w R L) V Q)
    as (ms & H & C & _).
  cbv zeta in *. rewrite E in *; simpl in *.
  eexists; split; [exact H|]. simpl.
  repeat split; auto using placeholder_not_empty.
Qed.

Lemma C9_witness :
  let body := ChatResponse.mk (Some []) None in
  let w' := run (mount 0)
              (submit (lit "Hi") ++ [] ++ [Settle (Fulfilled (Some body)) 0]) in
  valid (lit "Hi") /\ currentResponse w' = ChatScreen.placeholder.
Proof.
  intros body w'. split; [reflexivity|].
  assert (R : Reachable (mount 0)) by (exists 0, []; reflexivity).
  destruct (C9_empty_reply_becomes_placeholder (mount 0) (lit "Hi") [] body
              0%N R eq_refl eq_refl eq_refl eq_refl) as (x & _ & _ & C & _).
  exact C.
Defined.

(** C2.  When a text passes validation and the call fails, the current
    response becomes the user message of the error the chat client
    threw, no exchange is appended, and the log is what it was. *)
Theorem C2_failed_send_sets_current_response (w : World) (text : jsstring)
  (events : list Event) (reason : Rejection) (gap : N) :
  Reachable w -> isLoading w = false -> valid text ->
  forallb quiet events = true ->
  let w' := run w (submit text ++ events ++ [Settle (Rejected reason) gap]) in
  exists e,
    chatAPI.sendMessage (Rejected reason) = Throw (ThrownAPIError e)
    /\ currentResponse w' = APIError.getUserMessage e
    /\ chatHistory w' = chatHistory w
    /\ isLoading w' = false.
Proof.
  intros R L V Q.
  destruct (send_rejected w text events reason gap (reachable_idle w R L) V Q)
    as (H & C & I & _).
  destruct (sendMessage_rejected reason) as (e & He & _).
  exists e. cbv zeta in *.
  rewrite (rejected_user_message reason e He).
  repeat split; assumption.
Qed.

Lemma C2_witness :
  let w' := run (mount 0)
              (submit (lit "Test") ++ [Elapse 30000]
               ++ [Settle (Rejected (IsAxiosError timeout_of_30000ms)) 0]) in
  valid (lit "Test")
  /\ currentResponse w' = lit "Timeout della richiesta. Riprova."
  /\ chatHistory w' = [].
Proof.
  intros w'. split; [reflexivity|].
  assert (R : Reachable (mount 0)) by (exists 0, []; reflexivity).
  destruct (C2_failed_send_sets_current_response (mount 0) (lit "Test")
              [Elapse 30000] (IsAxiosError timeout_of_30000ms) 0%N
              R eq_refl eq_refl eq_refl) as (e & He & C & H & _).
  injection He as <-.
  split; [exact C | exact H].
Defined.

(* ================================================================== *)
(** ** How a failure reaches the caller *)

(** C5 as first stated fails: on a timed-out request [sendMessage] does
    not come back with a value, it throws. *)
Lemma C5_counterexample_timeout_throws :
  ~ (exists result,
       chatAPI.sendMessage (Rejected (IsAxiosError timeout_of_30000ms))
       = Normal result).
Proof.
  intros (result & H). discriminate H.
Qed.

(** C5, as amended.  On every failed call [sendMessage] throws, and
    what it throws is always an [APIError] (never the transport error
    itself, never anything else) carrying the status code of the
    failure, or 0 when there is none, and the transport code.  The
    caller receives it in its [catch] clause, where it becomes the user
    message; the handler itself then ends normally, with the loading
    flag lowered. *)
Theorem C5_failure_is_thrown_as_APIError (reason : Rejection) :
  (forall result, chatAPI.sendMessage (Rejected reason) <> Normal result)
  /\ exists e,
       chatAPI.sendMessage (Rejected reason) = Throw (ThrownAPIError e)
       /\ APIError.statusCode e = or_number (Classifier.status reason) 0
       /\ APIError.isTimeoutError e = Classifier.timeoutFlag reason
       /\ APIError.code e =
          match reason with
          | IsAxiosError error => AxiosError.code error
          | NotAxiosError => None
          end
       /\ forall messageToSend gap w,
            ChatScreen.tryBlock messageToSend (Rejected reason) gap w
            = Throw (ThrownAPIError e)
            /\ ChatScreen.handleSend_resume messageToSend (Rejected reason)
                 gap w
               = setIsLoading false
                   (ChatScreen.catchBlock (ThrownAPIError e) w).
Proof.
  destruct (sendMessage_rejected reason) as (e & He & Hflag & Hst).
  split.
  - intros result H. rewrite He in H. discriminate H.
  - exists e. repeat split; auto.
    + destruct reason as [error|]; injection He as <-; reflexivity.
    + unfold ChatScreen.tryBlock. now rewrite He.
    + unfold ChatScreen.handleSend_resume, ChatScreen.tryBlock.
      now rewrite He.
Qed.

Example sendMessage_fulfilled_returns (data : option ChatResponse.t) :
  chatAPI.sendMessage (Fulfilled data) = Normal data.
Proof. reflexivity. Qed.

(* ================================================================== *)
(** ** The log over a whole session *)

Section LogFacts.

Lemma StronglySorted_snoc {A} (R : A -> A -> Prop) (l : list A) (x : A) :
  StronglySorted R l -> Forall (fun a => R a x) l ->
  StronglySorted R (l ++ [x]).
Proof.
  induction 1 as [|a l S IH F]; intros B; simpl.
  - repeat constructor.
  - inversion B as [|? ? Rax B']; subst.
    constructor; [auto|].
    apply Forall_app; split; [assumption|].
    constructor; [assumption | constructor].
Qed.

Lemma StronglySorted_lt_NoDup (l : list Z) :
  StronglySorted Z.lt l -> NoDup l.
Proof.
  induction 1 as [|a l S IH F]; constructor; [|assumption].
  intros In. rewrite Forall_forall in F. specialize (F a In). lia.
Qed.

Lemma NoDup_map_toString (l : list Z) :
  NoDup l -> NoDup (map toString l).
Proof.
  induction 1 as [|a l N _ IH]; simpl; constructor; [|assumption].
  intros In. apply in_map_iff in In as (b & E & Inb).
  apply toString_inj in E; subst b. contradiction.
Qed.

(** What an event appends: nothing, or one entry, stamped with the
    clock readings taken while the event is handled. *)
Lemma appended_one (w : World) (e : Event) :
  appended w e = []
  \/ exists x,
       appended w e = [x]
       /\ ChatMessage.id x = toString (now w)
       /\ now w <= ChatMessage.timestamp x
       /\ ChatMessage.timestamp x = now (step w e).
Proof.
  unfold appended.
  destruct e as [ms|text| |[[body|]|reason] gap]; auto.
  destruct (pending w) as [|m rest] eqn:P; auto.
  right; eexists; split; [reflexivity|]; simpl.
  rewrite P, resume_fulfilled; simpl.
  repeat split; lia.
Qed.

Lemma step_chronological (w : World) (e : Event) :
  Chronological w -> Chronological (step w e).
Proof.
  unfold Chronological, timestamps. intros [S B].
  rewrite step_history, map_app.
  pose proof (step_clock w e) as C.
  assert (B' : Forall (fun t => t <= now (step w e))
                      (map ChatMessage.timestamp (chatHistory w))).
  { eapply Forall_impl; [|exact B]. simpl; intros; lia. }
  destruct (appended_one w e) as [->|(x & -> & _ & Lo & Hi)]; simpl.
  - rewrite app_nil_r; auto.
  - split.
    + apply StronglySorted_snoc; [assumption|].
      eapply Forall_impl; [|exact B]. simpl; intros; lia.
    + apply Forall_app; split; [assumption|].
      constructor; [lia | constructor].
Qed.

Lemma run_chronological (events : list Event) (w : World) :
  Chronological w -> Chronological (run w events).
Proof.
  revert w; induction events as [|e events IH]; intros w H; [exact H|].
  rewrite run_cons. apply IH, step_chronological, H.
Qed.

Lemma reachable_chronological (w : World) :
  Reachable w -> Chronological w.
Proof.
  intros (t0 & events & ->). apply run_chronological.
  split; constructor.
Qed.

(** The log only ever grows at its end. *)
Lemma run_history (events : list Event) (w : World) :
  exists tail, chatHistory (run w events) = chatHistory w ++ tail.
Proof.
  revert w; induction events as [|e events IH]; intros w.
  - exists []. now rewrite app_nil_r.
  - rewrite run_cons. destruct (IH (step w e)) as (tail & ->).
    rewrite step_history, <- app_assoc. eauto.
Qed.

(** A session of answered sends appends one entry per send, in the
    order of the sends. *)
Lemma session_successful (sends : list Send.t) (w : World) :
  Idle w -> Forall successful sends ->
  exists tail,
    chatHistory (run w (session sends)) = chatHistory w ++ tail
    /\ map ChatMessage.message tail
       = map (fun s => trim (Send.text s)) sends
    /\ map ChatMessage.response tail
       = map (fun s => shown (Send.settled s)) sends
    /\ Idle (run w (session sends)).
Proof.
  revert w; induction sends as [|s sends IH]; intros w I F.
  - exists []; simpl. rewrite app_nil_r. auto.
  - inversion F as [|? ? [V (body & E)] F']; subst.
    change (session (s :: sends)) with (Send.events s ++ session sends).
    rewrite run_app.
    assert (Q : forallb quiet [Elapse (Send.wait s)] = true) by reflexivity.
    destruct (send_fulfilled w (Send.text s) [Elapse (Send.wait s)] body
                (Send.gap s) I V Q) as (ms & H & _ & I' & _).
    cbv zeta in H, I'.
    replace (Send.events s)
      with (submit (Send.text s) ++ [Elapse (Send.wait s)]
            ++ [Settle (Fulfilled (Some body)) (Send.gap s)])
      by (unfold Send.events; rewrite E; reflexivity).
    destruct (IH _ I' F') as (tail & Ht & Hm & Hr & Hi).
    rewrite Ht, H, <- app_assoc.
    eexists; split; [reflexivity|]. simpl.
    rewrite Hm, Hr, E. auto.
Qed.

End LogFacts.

(* ================================================================== *)
(** ** The ids of the log *)

Section IdFacts.

Lemma step_ids (w : World) (e : Event) :
  ids (step w e) = ids w ++ map ChatMessage.id (appended w e).
Proof. unfold ids. now rewrite step_history, map_app. Qed.

Lemma quiet_ids (w : World) (e : Event) :
  quiet e = true -> ids (step w e) = ids w.
Proof.
  intros Q. rewrite step_ids.
  destruct e; try discriminate; unfold appended; simpl;
    now rewrite app_nil_r.
Qed.

Lemma user_event_clock (w : World) (e : Event) :
  match e with ChangeText _ | PressSend => True | _ => False end ->
  now (step w e) = now w.
Proof.
  destruct e as [ms|text| |o gap]; try contradiction; intros _; simpl.
  - now destruct (isLoading w).
  - destruct (isLoading w); [reflexivity|].
    destruct (valid_or_blank (message w)) as [V|B].
    + now rewrite handleSend_valid.
    + now rewrite handleSend_blank.
Qed.

Lemma IdsBelow_weaken (b b' : Z) (w : World) :
  b <= b' -> IdsBelow b w -> IdsBelow b' w.
Proof.
  intros Le (rs & E & S & F).
  exists rs; repeat split; auto.
  eapply Forall_impl; [|exact F]. simpl; intros; lia.
Qed.

(** An event handled at a reading that no id has reached yet keeps
    the ids strictly increasing. *)
Lemma step_IdsBelow (w : World) (e : Event) :
  IdsBelow (now w) w -> IdsBelow (now (step w e) + 1) (step w e).
Proof.
  intros (rs & E & S & F).
  pose proof (step_clock w e) as C.
  unfold IdsBelow. rewrite step_ids, E.
  destruct (appended_one w e) as [->|(x & -> & Ix & _)]; simpl.
  - exists rs. rewrite app_nil_r. repeat split; auto.
    eapply Forall_impl; [|exact F]. simpl; intros; lia.
  - exists (rs ++ [now w]).
    rewrite map_app, Ix. split; [reflexivity|]. split.
    + apply StronglySorted_snoc; assumption.
    + apply Forall_app; split.
      * eapply Forall_impl; [|exact F]. simpl; intros; lia.
      * constructor; [lia | constructor].
Qed.

(** One send during which at least a millisecond passes. *)
Lemma send_IdsBelow (w : World) (s : Send.t) :
  (0 < Send.wait s)%N ->
  IdsBelow (now w + 1) w ->
  let w' := run w (Send.events s) in
  IdsBelow (now w' + 1) w'.
Proof.
  intros W (rs & E & S & F). unfold Send.events.
  rewrite !run_cons. cbn [run fold_left].
  set (w1 := step w (ChangeText (Send.text s))).
  set (w2 := step w1 PressSend).
  set (w3 := step w2 (Elapse (Send.wait s))).
  apply step_IdsBelow.
  assert (N1 : now w1 = now w) by (apply user_event_clock; exact I).
  assert (N2 : now w2 = now w1) by (apply user_event_clock; exact I).
  assert (N3 : now w3 = now w2 + Z.of_N (Send.wait s)) by reflexivity.
  exists rs. split; [|split; [exact S|]].
  - subst w3 w2 w1. now rewrite !quiet_ids.
  - eapply Forall_impl; [|exact F]. simpl; intros; lia.
Qed.

Lemma session_IdsBelow (sends : list Send.t) (w : World) :
  Forall (fun s => (0 < Send.wait s)%N) sends ->
  IdsBelow (now w + 1) w ->
  let w' := run w (session sends) in
  IdsBelow (now w' + 1) w'.
Proof.
  revert w; induction sends as [|s sends IH]; intros w F B; [exact B|].
  inversion F as [|? ? W F']; subst.
  change (session (s :: sends)) with (Send.events s ++ session sends).
  cbv zeta. rewrite run_app.
  apply IH; [assumption|].
  now apply send_IdsBelow.
Qed.

Lemma IdsBelow_NoDup (b : Z) (w : World) : IdsBelow b w -> NoDup (ids w).
Proof.
  intros (rs & -> & S & _).
  now apply NoDup_map_toString, StronglySorted_lt_NoDup.
Qed.

End IdFacts.

(** C8 as first stated fails: two sends answered within the same
    millisecond give two entries (with different messages) that carry
    the same id. *)
Lemma C8_counterexample_same_millisecond :
  let body := ChatResponse.mk (Some (lit "ok")) None in
  let w := run (mount 1700000000000)
             (session [Send.ok (lit "a") 0 body 0;
                       Send.ok (lit "b") 0 body 0]) in
  Reachable w
  /\ map ChatMessage.message (chatHistory w) = [lit "a"; lit "b"]
  /\ ids w = [lit "1700000000000"; lit "1700000000000"]
  /\ ~ NoDup (ids w).
Proof.
  intros body w.
  split; [eexists _, _; reflexivity|].
  split; [reflexivity|].
  split; [reflexivity|].
  intros N. vm_compute in N.
  inversion N as [|x l NotIn _]; subst.
  apply NotIn. left; reflexivity.
Qed.

(** With the clock not set back and at least a millisecond passing
    while each request is outstanding, the ids of a session are
    pairwise different. *)
Lemma session_ids_differ_when_time_passes (t0 : Z) (sends : list Send.t) :
  Forall (fun s => (0 < Send.wait s)%N) sends ->
  NoDup (ids (run (mount t0) (session sends))).
Proof.
  intros F.
  apply (IdsBelow_NoDup (now (run (mount t0) (session sends)) + 1)).
  apply session_IdsBelow; [assumption|].
  exists []. repeat split; constructor.
Qed.

(* ================================================================== *)
(** ** Further properties of the chat screen *)

Section TrimFacts.

Lemma trimStart_cons (s : jsstring) (c : char16) (t : jsstring) :
  trimStart s = c :: t -> isWhiteSpace c = false.
Proof.
  induction s as [|a s IH]; simpl; [discriminate|].
  destruct (isWhiteSpace a) eqn:E; [exact IH|].
  intros [= <- _]. exact E.
Qed.

Lemma trimStart_fixed (s : jsstring) (c : char16) (t : jsstring) :
  s = c :: t -> isWhiteSpace c = false -> trimStart s = s.
Proof. intros -> E; simpl. now rewrite E. Qed.

Lemma trimStart_idem (s : jsstring) : trimStart (trimStart s) = trimStart s.
Proof.
  destruct (trimStart s) as [|c t] eqn:E; [reflexivity|].
  eapply trimStart_fixed; [reflexivity|].
  eapply trimStart_cons; exact E.
Qed.

(** [trimStart] drops a prefix, and that prefix is white space. *)
Lemma trimStart_split (s : jsstring) :
  exists pre, s = pre ++ trimStart s /\ forallb isWhiteSpace pre = true.
Proof.
  induction s as [|c s (pre & E & W)]; simpl.
  - exists []; auto.
  - destruct (isWhiteSpace c) eqn:C.
    + exists (c :: pre); simpl. rewrite C, W. split; [congruence | reflexivity].
    + exists []; auto.
Qed.

(** [trim] keeps a middle part of the string and drops white space
    on either side of it. *)
Lemma trim_split (s : jsstring) :
  exists pre post,
    s = pre ++ trim s ++ post
    /\ forallb isWhiteSpace pre = true
    /\ forallb isWhiteSpace post = true.
Proof.
  unfold trim, trimEnd.
  destruct (trimStart_split s) as (pre & E & W).
  destruct (trimStart_split (rev (trimStart s))) as (q & E' & W').
  exists pre, (rev q). repeat split; auto.
  - rewrite E at 1. f_equal.
    rewrite <- rev_app_distr, <- E'. now rewrite rev_involutive.
  - now rewrite forallb_rev.
Qed.

Lemma trim_idem (s : jsstring) : trim (trim s) = trim s.
Proof.
  unfold trim at 1, trimEnd.
  assert (H : trimStart (trim s) = trim s).
  { destruct (trim s) as [|c r] eqn:T; [reflexivity|].
    eapply trimStart_fixed; [reflexivity|].
    (* the first code unit of [trim s] is that of [trimStart s] *)
    unfold trim, trimEnd in T.
    destruct (trimStart_split (rev (trimStart s))) as (q & E & _).
    apply (f_equal (@rev _)) in E.
    rewrite rev_involutive, rev_app_distr, T in E.
    simpl in E. eapply trimStart_cons; exact E. }
  rewrite H. unfold trim, trimEnd.
  now rewrite rev_involutive, trimStart_idem.
Qed.

Lemma valid_trimmed_nonempty (text : jsstring) :
  valid text -> trimmed_nonempty (trim text).
Proof.
  unfold valid; intros V. split; [|apply trim_idem].
  intros E. rewrite E in V. discriminate V.
Qed.

End TrimFacts.

Section ScreenFacts.

Import ChatScreen.

Lemma step_settle (w : World) (o : PostOutcome) (gap : N) (m : jsstring)
  (rest : list jsstring) :
  pending w = m :: rest ->
  step w (Settle o gap) = handleSend_resume m o gap (setPending rest w).
Proof. intros P; simpl. now rewrite P. Qed.

Lemma submit_valid_requests (w : World) (text : jsstring) :
  isLoading w = false -> valid text ->
  pending (run w (submit text)) = pending w ++ [trim text]
  /\ posted (run w (submit text)) = posted w ++ [trim text].
Proof.
  intros L V. rewrite (submit_valid w text L V). split; reflexivity.
Qed.

Lemma shown_nonempty (o : PostOutcome) : shown o <> [].
Proof.
  destruct o as [[body|]|reason]; simpl.
  - destruct (ChatResponse.response body) as [[|c r]|]; simpl; discriminate.
  - discriminate.
  - destruct (Classifier.classify _ _); discriminate.
Qed.

Lemma resume_alerts (m : jsstring) (o : PostOutcome) (gap : N) (w : World) :
  alerts (handleSend_resume m o gap w) =
  alerts w ++ (if answered o then [] else [(lit "Errore", shown o)]).
Proof.
  destruct o as [[body|]|reason].
  - rewrite resume_fulfilled; simpl. now rewrite app_nil_r.
  - rewrite resume_null_body; reflexivity.
  - rewrite resume_rejected; reflexivity.
Qed.

(** What one event adds to the error dialogs. *)
Lemma step_errorNotices (w : World) (e : Event) :
  errorNotices (step w e) =
  errorNotices w
  ++ match e, pending w with
     | Settle o _, _ :: _ =>
         if answered o then [] else [(lit "Errore", shown o)]
     | _, _ => []
     end.
Proof.
  unfold errorNotices.
  destruct e as [ms|text| |o gap]; simpl.
  - now rewrite app_nil_r.
  - rewrite app_nil_r. now destruct (isLoading w).
  - rewrite app_nil_r. destruct (isLoading w); [reflexivity|].
    destruct (valid_or_blank (message w)) as [V|B].
    + now rewrite handleSend_valid.
    + rewrite handleSend_blank by assumption; simpl.
      rewrite filter_app; simpl. now rewrite app_nil_r.
  - destruct (pending w) as [|m rest]; [now rewrite app_nil_r|].
    rewrite resume_alerts, filter_app; simpl.
    destruct (answered o); reflexivity.
Qed.

Lemma step_currentResponse (w : World) (e : Event) :
  currentResponse (step w e) =
  match e, pending w with
  | Settle o _, _ :: _ => shown o
  | _, _ => currentResponse w
  end.
Proof.
  destruct e as [ms|text| |o gap]; simpl.
  - reflexivity.
  - now destruct (isLoading w).
  - destruct (isLoading w); [reflexivity|].
    destruct (valid_or_blank (message w)) as [V|B].
    + now rewrite handleSend_valid.
    + now rewrite handleSend_blank.
  - destruct (pending w) as [|m rest]; [reflexivity|].
    pose proof (resume_frame m o gap (setPending rest w)) as F.
    simpl in F. tauto.
Qed.

(** What one event does to the outstanding and to the issued
    requests. *)
Lemma step_requests (w : World) (e : Event) :
  (pending (step w e) = pending w /\ posted (step w e) = posted w)
  \/ (e = PressSend /\ valid (message w)
      /\ pending (step w e) = pending w ++ [trim (message w)]
      /\ posted (step w e) = posted w ++ [trim (message w)])
  \/ (exists o gap m rest,
        e = Settle o gap /\ pending w = m :: rest
        /\ pending (step w e) = rest /\ posted (step w e) = posted w).
Proof.
  destruct e as [ms|text| |o gap]; simpl.
  - left; auto.
  - left; now destruct (isLoading w).
  - destruct (isLoading w); [left; auto|].
    destruct (valid_or_blank (message w)) as [V|B].
    + right; left. rewrite handleSend_valid by assumption. simpl; auto.
    + left. rewrite handleSend_blank by assumption. simpl; auto.
  - destruct (pending w) as [|m rest] eqn:P; [left; auto|].
    right; right. exists o, gap, m, rest.
    pose proof (resume_frame m o gap (setPending rest w)) as F.
    simpl in F. tauto.
Qed.

End ScreenFacts.

(** X1.  However the outstanding request settles (answered, answered
    with a null body, rejected), the loading flag is lowered and no
    request is left outstanding, so the next valid submit is accepted
    and issued. *)
Theorem settle_always_returns_to_idle (w : World) (o : PostOutcome)
  (gap : N) (text : jsstring) :
  Reachable w -> isLoading w = true -> valid text ->
  let w' := step w (Settle o gap) in
  Idle w'
  /\ posted w' = posted w
  /\ pending (run w' (submit text)) = [trim text]
  /\ posted (run w' (submit text)) = posted w ++ [trim text].
Proof.
  intros R L V.
  destruct (reachable_send_state w R) as [[L' _]|(_ & _ & m & P)];
    [congruence|].
  cbv zeta. rewrite (step_settle w o gap m [] P).
  pose proof (resume_frame m o gap (setPending [] w)) as F.
  cbv zeta in F. destruct F as (F1 & _ & F3 & F4 & _).
  change (pending (setPending [] w)) with (@nil jsstring) in F3.
  change (posted (setPending [] w)) with (posted w) in F4.
  split; [split; assumption|]. split; [assumption|].
  destruct (submit_valid_requests _ text F1 V) as [-> ->].
  now rewrite F3, F4.
Qed.

Lemma settle_always_returns_to_idle_witness :
  let w := run (mount 0) (submit (lit "Test")) in
  Reachable w /\ isLoading w = true /\ valid (lit "next")
  /\ Idle (step w (Settle (Fulfilled None) 0)).
Proof.
  intros w.
  assert (R : Reachable w) by (exists 0, (submit (lit "Test")); reflexivity).
  split; [exact R|]. split; [reflexivity|]. split; [reflexivity|].
  exact (proj1 (settle_always_returns_to_idle w (Fulfilled None) 0%N
                  (lit "next") R eq_refl eq_refl)).
Defined.

(** X2.  A call that is answered with a null body is handled as a
    failure: reading the reply field throws, the catch clause shows the
    generic error text and raises one error dialog with it, and nothing
    is appended to the log. *)
Theorem null_body_is_handled_as_error (w : World) (text : jsstring)
  (events : list Event) (gap : N) :
  Reachable w -> isLoading w = false -> valid text ->
  forallb quiet events = true ->
  let w' := run w (submit text ++ events ++ [Settle (Fulfilled None) gap]) in
  ChatScreen.tryBlock (trim text) (Fulfilled None) gap w = Throw ThrownTypeError
  /\ chatHistory w' = chatHistory w
  /\ currentResponse w' = ChatScreen.genericError
  /\ alerts w' = alerts w ++ [(lit "Errore", ChatScreen.genericError)]
  /\ isLoading w' = false.
Proof.
  intros R L V Q.
  destruct (lifecycle w text events (Fulfilled None) gap
              (reachable_idle w R L) V Q) as (ms & E).
  cbv zeta. rewrite E, resume_null_body; simpl.
  repeat split.
Qed.

Lemma null_body_is_handled_as_error_witness :
  let w' := run (mount 0)
              (submit (lit "Test") ++ [] ++ [Settle (Fulfilled None) 0]) in
  valid (lit "Test")
  /\ chatHistory w' = []
  /\ currentResponse w' = lit "Errore nel contatto con TAUROS.".
Proof.
  intros w'. split; [reflexivity|].
  assert (R : Reachable (mount 0)) by (exists 0, []; reflexivity).
  destruct (null_body_is_handled_as_error (mount 0) (lit "Test") [] 0%N
              R eq_refl eq_refl eq_refl) as (_ & H & C & _).
  split; [exact H | exact C].
Defined.

(** X3.  A send that is not answered with a body raises exactly one
    error dialog, whose text is the text put into the current
    response; a send that is answered raises none. *)
Theorem error_dialog_matches_current_response (w : World) (text : jsstring)
  (events : list Event) (o : PostOutcome) (gap : N) :
  Reachable w -> isLoading w = false -> valid text ->
  forallb quiet events = true ->
  let w' := run w (submit text ++ events ++ [Settle o gap]) in
  alerts w' =
  alerts w ++ (if answered o then [] else [(lit "Errore", currentResponse w')]).
Proof.
  intros R L V Q.
  destruct (lifecycle w text events o gap (reachable_idle w R L) V Q)
    as (ms & E).
  cbv zeta. rewrite E, resume_alerts.
  match goal with
  | |- context [currentResponse (ChatScreen.handleSend_resume ?m ?o ?g ?x)] =>
      pose proof (resume_frame m o g x) as F
  end.
  cbv zeta in F. destruct F as (_ & _ & _ & _ & F5 & _).
  rewrite F5. reflexivity.
Qed.

Lemma error_dialog_matches_current_response_witness :
  let w' := run (mount 0)
              (submit (lit "Test") ++ []
               ++ [Settle (Rejected (IsAxiosError timeout_of_30000ms)) 0]) in
  valid (lit "Test")
  /\ alerts w' = [(lit "Errore", lit "Timeout della richiesta. Riprova.")].
Proof.
  intros w'. split; [reflexivity|].
  assert (R : Reachable (mount 0)) by (exists 0, []; reflexivity).
  exact (error_dialog_matches_current_response (mount 0) (lit "Test") []
           (Rejected (IsAxiosError timeout_of_30000ms)) 0%N
           R eq_refl eq_refl eq_refl).
Defined.

Section WellFormedness.

Lemma step_well_formed (w : World) (e : Event) :
  WellFormed w -> WellFormed (step w e).
Proof.
  intros (Hp & Hs & Hh). unfold WellFormed.
  rewrite step_history.
  assert (Hh' :
    Forall (fun x => trimmed_nonempty (ChatMessage.message x)
                     /\ ChatMessage.response x <> [])
           (chatHistory w ++ appended w e)).
  { apply Forall_app; split; [assumption|].
    unfold appended.
    destruct e as [ms|text| |[[body|]|reason] gap]; try constructor.
    destruct (pending w) as [|m rest]; constructor; [|constructor].
    simpl. split; [now inversion Hp|].
    apply (shown_nonempty (Fulfilled (Some body))). }
  destruct (step_requests w e)
    as [[-> ->]|[(_ & V & -> & ->)|(o & gap & m & rest & _ & P & -> & ->)]].
  - split; [|split]; assumption.
  - pose proof (valid_trimmed_nonempty _ V) as G.
    split; [|split; [|assumption]].
    + apply Forall_app; split; [assumption|].
      constructor; [exact G | constructor].
    + apply Forall_app; split; [assumption|].
      constructor; [exact G | constructor].
  - rewrite P in Hp. inversion Hp; subst.
    split; [|split]; assumption.
Qed.

Lemma reachable_well_formed (w : World) : Reachable w -> WellFormed w.
Proof.
  intros (t0 & events & ->).
  assert (H : WellFormed (mount t0)) by (repeat split; constructor).
  revert H. generalize (mount t0).
  induction events as [|e events IH]; intros w H; [exact H|].
  rewrite run_cons. apply IH, step_well_formed, H.
Qed.

End WellFormedness.

(** X4.  Whatever the user types and however requests settle, every
    message handed to the chat client, and every message recorded in
    the log, is non-empty and has no white space left at either end;
    and no logged response is the empty string. *)
Theorem requests_and_log_are_well_formed (w : World) :
  Reachable w ->
  Forall trimmed_nonempty (posted w)
  /\ Forall (fun x => trimmed_nonempty (ChatMessage.message x)
                      /\ ChatMessage.response x <> [])
            (chatHistory w).
Proof.
  intros R. destruct (reachable_well_formed w R) as (_ & Hs & Hh). auto.
Qed.

Lemma requests_and_log_are_well_formed_witness :
  let w := run (mount 0)
             (submit (lit "  hi  ")
              ++ [Settle (Fulfilled (Some (ChatResponse.mk (Some []) None))) 0])
  in
  Reachable w /\ Forall trimmed_nonempty (posted w) /\ posted w = [lit "hi"].
Proof.
  intros w.
  assert (R : Reachable w) by (eexists 0, _; reflexivity).
  split; [exact R|].
  split; [exact (proj1 (requests_and_log_are_well_formed w R)) | reflexivity].
Defined.

Section Accounting.

Import ChatScreen.

Lemma step_accounted (w : World) (e : Event) :
  List.length (posted w) =
    (List.length (chatHistory w) + List.length (errorNotices w)
     + List.length (pending w))%nat ->
  List.length (posted (step w e)) =
    (List.length (chatHistory (step w e))
     + List.length (errorNotices (step w e))
     + List.length (pending (step w e)))%nat.
Proof.
  intros H.
  rewrite step_history, step_errorNotices, !length_app.
  destruct e as [ms|text| |o gap].
  - simpl. lia.
  - simpl. destruct (isLoading w); simpl; lia.
  - replace (appended w PressSend) with (@nil ChatMessage.t)
      by (unfold appended; now destruct (pending w)).
    simpl. destruct (isLoading w); [lia|].
    destruct (valid_or_blank (message w)) as [V|B].
    + rewrite handleSend_valid by assumption; simpl.
      rewrite !length_app; simpl. lia.
    + rewrite handleSend_blank by assumption; simpl. lia.
  - unfold appended.
    destruct (pending w) as [|m rest] eqn:P.
    + assert (step w (Settle o gap) = w) as ->
          by (simpl; now rewrite P).
      rewrite P.
      destruct o as [[body|]|reason]; simpl in *; lia.
    + rewrite (step_settle w o gap m rest P).
      pose proof (resume_frame m o gap (setPending rest w)) as F.
      cbv zeta in F. destruct F as (_ & _ & -> & -> & _).
      simpl in H |- *.
      destruct o as [[body|]|reason]; simpl; lia.
Qed.

Lemma step_shown_or_kept (w : World) (e : Event) :
  (currentResponse w = [] -> chatHistory w = [] /\ errorNotices w = []) ->
  currentResponse (step w e) = [] ->
  chatHistory (step w e) = [] /\ errorNotices (step w e) = [].
Proof.
  intros H.
  rewrite step_currentResponse, step_history, step_errorNotices.
  unfold appended.
  destruct e as [ms|text| |o gap];
    try (intros E; destruct (H E) as [-> ->];
         destruct (pending w); split; reflexivity).
  destruct (pending w) as [|m rest].
  - intros E; destruct (H E) as [-> ->].
    destruct o as [[?|]|?]; split; reflexivity.
  - intros E. now apply shown_nonempty in E.
Qed.

(** One send of a session, whatever its text and its outcome. *)
Lemma send_any (w : World) (s : Send.t) :
  Idle w ->
  let w' := run w (Send.events s) in
  Idle w'
  /\ posted w' =
     posted w ++ (if passes s then [trim (Send.text s)] else [])
  /\ map ChatMessage.message (chatHistory w') =
     map ChatMessage.message (chatHistory w)
     ++ (if passes s && answered (Send.settled s)
         then [trim (Send.text s)] else []).
Proof.
  intros I. cbv zeta.
  change (Send.events s)
    with (submit (Send.text s) ++ [Elapse (Send.wait s)]
          ++ [Settle (Send.settled s) (Send.gap s)]).
  destruct (valid_or_blank (Send.text s)) as [V|B].
  - assert (Pv : passes s = true) by exact V.
    destruct (lifecycle w (Send.text s) [Elapse (Send.wait s)]
                (Send.settled s) (Send.gap s) I V eq_refl) as (ms & ->).
    rewrite Pv, resume_history.
    match goal with
    | |- context [Idle (handleSend_resume ?m ?o ?g ?x)] =>
        pose proof (resume_frame m o g x) as F
    end.
    cbv zeta in F. destruct F as (F1 & _ & F3 & F4 & _).
    split; [split; [exact F1 | exact F3]|].
    split; [exact F4|].
    rewrite map_app. simpl chatHistory. f_equal.
    destruct (Send.settled s) as [[body|]|reason]; reflexivity.
  - assert (Pb : passes s = false).
    { unfold passes. rewrite truthy_trim. unfold blank in B. now rewrite B. }
    destruct I as [L P].
    rewrite !run_app, (submit_blank w (Send.text s) L B), Pb.
    unfold run; simpl. rewrite P; simpl.
    rewrite !app_nil_r. repeat split; assumption.
Qed.

Lemma session_any (sends : list Send.t) (w : World) :
  Idle w ->
  let w' := run w (session sends) in
  Idle w'
  /\ posted w' =
     posted w ++ map (fun s => trim (Send.text s)) (filter passes sends)
  /\ map ChatMessage.message (chatHistory w') =
     map ChatMessage.message (chatHistory w)
     ++ map (fun s => trim (Send.text s))
            (filter (fun s => passes s && answered (Send.settled s)) sends).
Proof.
  revert w; induction sends as [|s sends IH]; intros w I.
  - simpl. rewrite !app_nil_r. auto.
  - change (session (s :: sends)) with (Send.events s ++ session sends).
    cbv zeta. rewrite run_app.
    destruct (send_any w s I) as (I' & Hp & Hm).
    destruct (IH _ I') as (I'' & Hp' & Hm').
    split; [exact I''|].
    rewrite Hp', Hm', Hp, Hm, <- !app_assoc. simpl filter.
    split; f_equal.
    + now destruct (passes s).
    + now destruct (passes s && answered (Send.settled s)).
Qed.

End Accounting.

(** X5.  In every reachable state each request handed to the chat
    client is accounted for exactly once: it is still outstanding, or it
    has produced an entry of the log, or it has produced an error
    dialog. *)
Theorem every_request_is_accounted_for (w : World) :
  Reachable w ->
  List.length (posted w) =
    (List.length (chatHistory w) + List.length (errorNotices w)
     + List.length (pending w))%nat.
Proof.
  intros (t0 & events & ->).
  assert (H : List.length (posted (mount t0)) =
              (List.length (chatHistory (mount t0))
               + List.length (errorNotices (mount t0))
               + List.length (pending (mount t0)))%nat) by reflexivity.
  revert H. generalize (mount t0).
  induction events as [|e events IH]; intros w H; [exact H|].
  rewrite run_cons. apply IH, step_accounted, H.
Qed.

Lemma every_request_is_accounted_for_witness :
  let w := run (mount 0)
             (session
                [Send.ok (lit "a") 5 (ChatResponse.mk (Some (lit "b")) None) 0;
                 Send.mk (lit "c") 5 (Rejected NotAxiosError) 0]
              ++ submit (lit "d")) in
  Reachable w
  /\ List.length (posted w) = 3%nat
  /\ List.length (chatHistory w) = 1%nat
  /\ List.length (errorNotices w) = 1%nat
  /\ List.length (pending w) = 1%nat.
Proof.
  intros w.
  assert (R : Reachable w) by (eexists 0, _; reflexivity).
  split; [exact R|].
  pose proof (every_request_is_accounted_for w R) as H.
  assert (E1 : List.length (chatHistory w) = 1%nat) by reflexivity.
  assert (E2 : List.length (errorNotices w) = 1%nat) by reflexivity.
  assert (E3 : List.length (pending w) = 1%nat) by reflexivity.
  rewrite E1, E2, E3 in H. auto.
Defined.

(** X6.  Over a whole session, with texts that pass validation or not
    and requests that are answered or not: the chat client receives the
    trimmed texts of exactly the sends that pass validation, in order;
    the log records the trimmed texts of exactly those of them that are
    answered with a body, in order; and the session ends with no request
    outstanding. *)
Theorem session_posts_valid_and_logs_answered (t0 : Z) (sends : list Send.t) :
  let w := run (mount t0) (session sends) in
  posted w = map (fun s => trim (Send.text s)) (filter passes sends)
  /\ map ChatMessage.message (chatHistory w) =
     map (fun s => trim (Send.text s))
         (filter (fun s => passes s && answered (Send.settled s)) sends)
  /\ Idle w.
Proof.
  destruct (session_any sends (mount t0) (mount_idle t0)) as (I & Hp & Hm).
  cbv zeta. rewrite Hp, Hm. auto.
Qed.

Example session_mixed :
  let w := run (mount 0)
             (session
                [Send.ok (lit " a ") 5 (ChatResponse.mk None None) 0;
                 Send.ok (lit "   ") 5 (ChatResponse.mk None None) 0;
                 Send.mk (lit "c") 5 (Rejected NotAxiosError) 0;
                 Send.mk (lit "d") 5 (Fulfilled None) 0]) in
  posted w = [lit "a"; lit "c"; lit "d"]
  /\ map ChatMessage.message (chatHistory w) = [lit "a"].
Proof. split; reflexivity. Qed.

(** X7.  Whatever a settling request puts into the current response is
    a non-empty text.  So as soon as the log holds an entry, or an
    error dialog has been raised, the response area shows the current
    response and never again the greeting. *)
Theorem greeting_only_before_first_settle (w : World) :
  Reachable w ->
  chatHistory w <> [] \/ errorNotices w <> [] ->
  currentResponse w <> []
  /\ ChatView.responseArea w = currentResponse w.
Proof.
  intros (t0 & events & ->) H.
  assert (G : currentResponse (run (mount t0) events) = [] ->
              chatHistory (run (mount t0) events) = []
              /\ errorNotices (run (mount t0) events) = []).
  { clear H.
    assert (G0 : currentResponse (mount t0) = [] ->
                 chatHistory (mount t0) = [] /\ errorNotices (mount t0) = [])
      by (intros _; split; reflexivity).
    revert G0. generalize (mount t0).
    induction events as [|e events IH]; intros w G0; [exact G0|].
    rewrite run_cons. apply IH, step_shown_or_kept, G0. }
  assert (N : currentResponse (run (mount t0) events) <> []).
  { intros E. destruct (G E) as [E1 E2]. destruct H; contradiction. }
  split; [exact N|].
  unfold ChatView.responseArea.
  destruct (currentResponse (run (mount t0) events)); [contradiction|].
  reflexivity.
Qed.

Lemma greeting_only_before_first_settle_witness :
  let w := run (mount 0)
             (submit (lit "Test") ++ [Settle (Rejected NotAxiosError) 0]) in
  Reachable w /\ errorNotices w <> []
  /\ ChatView.responseArea w = lit "Impossibile connettersi al server.".
Proof.
  intros w.
  assert (R : Reachable w) by (eexists 0, _; reflexivity).
  assert (E : errorNotices w <> []) by discriminate.
  split; [exact R|]. split; [exact E|].
  destruct (greeting_only_before_first_settle w R (or_intror E)) as (_ & ->).
  reflexivity.
Defined.

(** X8.  What the screen renders agrees with the requests: in every
    reachable state the send button is disabled, captioned
    "Invio...", and the input is locked, exactly when a request is
    outstanding; and the locked input is empty. *)
Theorem view_reflects_outstanding_request (w : World) :
  Reachable w ->
  (ChatView.sendDisabled w = true <-> pending w <> [])
  /\ (ChatView.sendLabel w = lit "Invio..." <-> pending w <> [])
  /\ (ChatView.inputEditable w = false <-> pending w <> [])
  /\ (pending w <> [] -> ChatView.inputValue w = []).
Proof.
  intros R.
  unfold ChatView.sendDisabled, ChatView.sendLabel, ChatView.inputEditable,
    ChatView.inputValue.
  destruct (reachable_send_state w R) as [[L P]|(L & M & m & P)];
    rewrite L, P; simpl.
  - repeat split; try discriminate; try congruence.
  - repeat split; try discriminate; auto.
Qed.

Lemma view_reflects_outstanding_request_witness :
  let w := run (mount 0) (submit (lit "Test")) in
  Reachable w /\ ChatView.sendLabel w = lit "Invio...".
Proof.
  intros w.
  assert (R : Reachable w) by (eexists 0, _; reflexivity).
  split; [exact R|].
  destruct (view_reflects_outstanding_request w R) as (_ & [_ H] & _).
  apply H. discriminate.
Defined.

(* ================================================================== *)
(** ** Further properties of the API utilities *)

(** X9.  The text shown after a failed call depends only on the status
    and the code of the transport error, not on its own message: two
    failures that agree on status and code are shown alike, and what is
    shown is one of the five fixed texts. *)
Theorem shown_text_ignores_transport_message (e1 e2 : AxiosError.t)
  (m : jsstring) (gap : N) (w : World) :
  AxiosError.response_status e1 = AxiosError.response_status e2 ->
  AxiosError.code e1 = AxiosError.code e2 ->
  let shown1 :=
    currentResponse
      (ChatScreen.handleSend_resume m (Rejected (IsAxiosError e1)) gap w) in
  let shown2 :=
    currentResponse
      (ChatScreen.handleSend_resume m (Rejected (IsAxiosError e2)) gap w) in
  shown1 = shown2
  /\ In shown1 (map Classifier.user_message
                    [Timeout; NetworkUnreachable; ServerFault;
                     InvalidRequest; Unknown]).
Proof.
  intros Hs Hc. cbv zeta.
  rewrite !resume_rejected. simpl currentResponse.
  unfold shown, Classifier.timeoutFlag, Classifier.status.
  rewrite Hs, Hc. split; [reflexivity|].
  apply in_map.
  destruct (Classifier.classify _ _); simpl; tauto.
Qed.

Lemma shown_text_ignores_transport_message_witness :
  let e1 := AxiosError.mk (lit "Request failed with status code 503")
                          (Some 503) (Some (lit "ERR_BAD_RESPONSE")) in
  let e2 := AxiosError.mk [] (Some 503) (Some (lit "ERR_BAD_RESPONSE")) in
  currentResponse
    (ChatScreen.handleSend_resume (lit "hi") (Rejected (IsAxiosError e1)) 0
                                  (mount 0))
  = currentResponse
      (ChatScreen.handleSend_resume (lit "hi") (Rejected (IsAxiosError e2)) 0
                                    (mount 0)).
Proof.
  intros e1 e2.
  exact (proj1 (shown_text_ignores_transport_message e1 e2 (lit "hi") 0%N
                  (mount 0) eq_refl eq_refl)).
Defined.

(** X10.  The status classes of an [APIError] do not overlap: it is a
    network error exactly at status 0, a server error exactly from 500
    up, a client error exactly from 400 to 499, so at most one of the
    three holds; and none holds exactly for a negative status or one
    from 1 to 399. *)
Theorem status_classes_do_not_overlap (e : APIError.t) :
  let s := APIError.statusCode e in
  (APIError.isNetworkError e = true <-> s = 0)
  /\ (APIError.isServerError e = true <-> 500 <= s)
  /\ (APIError.isClientError e = true <-> 400 <= s < 500)
  /\ APIError.isNetworkError e && APIError.isServerError e = false
  /\ APIError.isNetworkError e && APIError.isClientError e = false
  /\ APIError.isServerError e && APIError.isClientError e = false
  /\ (APIError.isNetworkError e || APIError.isServerError e
      || APIError.isClientError e = false <-> s < 0 \/ 0 < s < 400).
Proof.
  unfold APIError.isNetworkError, APIError.isServerError,
    APIError.isClientError, truthy_number.
  cbv zeta. rewrite negb_involutive, orb_diag, !Z.geb_leb.
  destruct (Z.eqb_spec (APIError.statusCode e) 0);
    destruct (Z.leb_spec 500 (APIError.statusCode e));
    destruct (Z.leb_spec 400 (APIError.statusCode e));
    destruct (Z.ltb_spec (APIError.statusCode e) 500);
    simpl; repeat split; intros; try discriminate; try lia.
Qed.

(** X11.  Whatever the transport failure, the error [sendMessage]
    throws is well formed: its message is never empty (an empty
    transport message is replaced by "Network error"), its status code
    is 0 exactly when the failure carries no status or status 0, and
    otherwise it is the status of the failure; a failure that is not an
    axios error carries no code. *)
Theorem thrown_error_is_normalised (reason : Rejection) :
  exists e,
    chatAPI.sendMessage (Rejected reason) = Throw (ThrownAPIError e)
    /\ APIError.message e <> []
    /\ (APIError.statusCode e = 0 <->
        Classifier.status reason = None \/ Classifier.status reason = Some 0)
    /\ (forall s, Classifier.status reason = Some s -> s <> 0 ->
                  APIError.statusCode e = s)
    /\ (reason = NotAxiosError ->
        APIError.code e = None
        /\ APIError.message e = lit "Unknown error occurred")
    /\ (forall error, reason = IsAxiosError error ->
        APIError.code e = AxiosError.code error
        /\ (AxiosError.message error <> [] ->
            APIError.message e = AxiosError.message error)
        /\ (AxiosError.message error = [] ->
            APIError.message e = lit "Network error")).
Proof.
  destruct reason as [error|]; simpl; eexists; split; try reflexivity; simpl.
  - destruct error as [msg st code]; simpl.
    split; [destruct msg; discriminate|].
    split.
    { destruct st as [s|]; simpl; unfold truthy_number.
      - destruct (Z.eqb_spec s 0) as [->|Hne]; simpl.
        + split; auto.
        + split; [intros; contradiction|].
          intros [H|H]; [discriminate | injection H; contradiction].
      - split; auto. }
    split.
    { intros s -> Hs. simpl. unfold truthy_number.
      destruct (Z.eqb_spec s 0); [contradiction | reflexivity]. }
    split; [discriminate|].
    intros error' [= <-]; simpl.
    split; [reflexivity|].
    split; intros H; destruct msg; try reflexivity; try contradiction;
      discriminate.
  - split; [discriminate|].
    split; [split; auto|].
    split; [discriminate|].
    split; [auto | discriminate].
Qed.

(* ================================================================== *)
(** ** The settings screen *)

Section SettingsFacts.

Import SettingsScreen.

Lemma eqb_refl (a : jsstring) : JS.eqb a a = true.
Proof. now apply eqb_eq. Qed.

Lemma eqb_neq (a b : jsstring) : JS.eqb a b = false <-> a <> b.
Proof.
  split.
  - intros H E. apply eqb_eq in E. congruence.
  - intros H. destruct (JS.eqb a b) eqn:E; [|reflexivity].
    apply eqb_eq in E. contradiction.
Qed.

(** The rendered rows, looked up by key. *)
Lemma rowOf_rows (key : jsstring) (s : Screen) :
  rowOf key (rows s) =
  if JS.eqb (lit "gpt-mode") key then
    renderSettingItem (nth 0 (settingsData s) (mkItem [] [] None info None None None))
  else if JS.eqb (lit "notifications") key then
    renderSettingItem (nth 1 (settingsData s) (mkItem [] [] None info None None None))
  else if JS.eqb (lit "dark-mode") key then
    renderSettingItem (nth 2 (settingsData s) (mkItem [] [] None info None None None))
  else if JS.eqb (lit "about") key then
    renderSettingItem (nth 3 (settingsData s) (mkItem [] [] None info None None None))
  else None.
Proof.
  unfold rows, settingsData. cbn [map renderSettingItem type rowOf key_of id].
  destruct (JS.eqb (lit "gpt-mode") key); [reflexivity|].
  destruct (JS.eqb (lit "notifications") key); [reflexivity|].
  destruct (JS.eqb (lit "dark-mode") key); [reflexivity|].
  destruct (JS.eqb (lit "about") key); reflexivity.
Qed.

Lemma switchValue_cases (key : jsstring) (s : Screen) :
  switchValue key s =
  if JS.eqb (lit "gpt-mode") key then Some (gptMode s)
  else if JS.eqb (lit "notifications") key then Some (notifications s)
  else if JS.eqb (lit "dark-mode") key then Some (darkMode s)
  else None.
Proof.
  unfold switchValue. rewrite rowOf_rows.
  destruct (JS.eqb (lit "gpt-mode") key); [reflexivity|].
  destruct (JS.eqb (lit "notifications") key); [reflexivity|].
  destruct (JS.eqb (lit "dark-mode") key); [reflexivity|].
  destruct (JS.eqb (lit "about") key); reflexivity.
Qed.

Lemma act_flip (key : jsstring) (v : bool) (s : Screen) :
  act s (Flip key v) =
  if JS.eqb (lit "gpt-mode") key then handleGptModeToggle v s
  else if JS.eqb (lit "notifications") key then handleNotificationsToggle v s
  else if JS.eqb (lit "dark-mode") key then handleDarkModeToggle v s
  else s.
Proof.
  unfold act. rewrite rowOf_rows.
  destruct (JS.eqb (lit "gpt-mode") key); [reflexivity|].
  destruct (JS.eqb (lit "notifications") key); [reflexivity|].
  destruct (JS.eqb (lit "dark-mode") key); [reflexivity|].
  destruct (JS.eqb (lit "about") key); reflexivity.
Qed.

Lemma act_press (key : jsstring) (s : Screen) :
  act s (Press key) =
  if JS.eqb (lit "about") key then handleAboutPress s else s.
Proof.
  unfold act. rewrite rowOf_rows.
  destruct (JS.eqb (lit "gpt-mode") key) eqn:E1;
    [apply eqb_eq in E1; subst key; reflexivity|].
  destruct (JS.eqb (lit "notifications") key) eqn:E2;
    [apply eqb_eq in E2; subst key; reflexivity|].
  destruct (JS.eqb (lit "dark-mode") key) eqn:E3;
    [apply eqb_eq in E3; subst key; reflexivity|].
  destruct (JS.eqb (lit "about") key); reflexivity.
Qed.

Lemma eqb_sym (a b : jsstring) : JS.eqb a b = JS.eqb b a.
Proof.
  destruct (JS.eqb b a) eqn:E.
  - apply eqb_eq in E; subst. apply eqb_refl.
  - apply eqb_neq. apply eqb_neq in E. congruence.
Qed.

Lemma act_effects (s : Screen) (a : Action) :
  dialogs (act s a) =
    dialogs s ++ (if raisesDialog a then [settingsDialogOf a] else [])
  /\ goBacks (act s a) = (goBacks s + (if isBack a then 1 else 0))%nat.
Proof.
  destruct a as [key v|key|].
  - rewrite act_flip. unfold raisesDialog. rewrite (eqb_sym key).
    destruct (JS.eqb (lit "gpt-mode") key) eqn:E1.
    { apply eqb_eq in E1; subst key; simpl.
      rewrite app_nil_r; split; [reflexivity | lia]. }
    destruct (JS.eqb (lit "notifications") key) eqn:E2.
    { apply eqb_eq in E2; subst key; simpl.
      rewrite app_nil_r; split; [reflexivity | lia]. }
    destruct (JS.eqb (lit "dark-mode") key); simpl.
    + split; [reflexivity | lia].
    + rewrite app_nil_r; split; [reflexivity | lia].
  - rewrite act_press. unfold raisesDialog. rewrite (eqb_sym key).
    destruct (JS.eqb (lit "about") key); simpl.
    + split; [reflexivity | lia].
    + rewrite app_nil_r; split; [reflexivity | lia].
  - simpl. rewrite app_nil_r; split; [reflexivity | lia].
Qed.

End SettingsFacts.

(** X12.  Flipping a rendered switch and rendering again shows the new
    position on that switch and the old positions on the others; it
    never navigates. *)
Theorem flipped_switch_shows_new_value (s : SettingsScreen.Screen)
  (key : jsstring) (v : bool) :
  SettingsScreen.switchValue key s <> None ->
  let s' := SettingsScreen.act s (SettingsScreen.Flip key v) in
  SettingsScreen.switchValue key s' = Some v
  /\ (forall key', key' <> key ->
        SettingsScreen.switchValue key' s' = SettingsScreen.switchValue key' s)
  /\ SettingsScreen.goBacks s' = SettingsScreen.goBacks s.
Proof.
  intros H. cbv zeta.
  rewrite switchValue_cases in H.
  rewrite act_flip.
  destruct (JS.eqb (lit "gpt-mode") key) eqn:E1.
  { apply eqb_eq in E1; subst key.
    split; [reflexivity|]. split; [|reflexivity].
    intros key' N. rewrite !switchValue_cases.
    destruct (JS.eqb (lit "gpt-mode") key') eqn:E; [|reflexivity].
    apply eqb_eq in E. congruence. }
  destruct (JS.eqb (lit "notifications") key) eqn:E2.
  { apply eqb_eq in E2; subst key.
    split; [reflexivity|]. split; [|reflexivity].
    intros key' N. rewrite !switchValue_cases.
    destruct (JS.eqb (lit "gpt-mode") key'); [reflexivity|].
    destruct (JS.eqb (lit "notifications") key') eqn:E; [|reflexivity].
    apply eqb_eq in E. congruence. }
  destruct (JS.eqb (lit "dark-mode") key) eqn:E3; [|contradiction].
  apply eqb_eq in E3; subst key.
  split; [reflexivity|]. split; [|reflexivity].
  intros key' N. rewrite !switchValue_cases.
  destruct (JS.eqb (lit "gpt-mode") key'); [reflexivity|].
  destruct (JS.eqb (lit "notifications") key'); [reflexivity|].
  destruct (JS.eqb (lit "dark-mode") key') eqn:E; [|reflexivity].
  apply eqb_eq in E. congruence.
Qed.

Lemma flipped_switch_shows_new_value_witness :
  let s' := SettingsScreen.act SettingsScreen.mounted
              (SettingsScreen.Flip (lit "notifications") false) in
  SettingsScreen.switchValue (lit "notifications") SettingsScreen.mounted
    <> None
  /\ SettingsScreen.switchValue (lit "notifications") s' = Some false
  /\ SettingsScreen.switchValue (lit "gpt-mode") s' = Some true.
Proof.
  intros s'; subst s'.
  assert (H : SettingsScreen.switchValue (lit "notifications")
                SettingsScreen.mounted <> None) by discriminate.
  split; [exact H|].
  destruct (flipped_switch_shows_new_value SettingsScreen.mounted
              (lit "notifications") false H) as (A & B & _).
  split; [exact A|].
  rewrite (B (lit "gpt-mode")); [reflexivity | discriminate].
Defined.

(** X13.  Over any sequence of actions on the settings screen, an alert
    is raised by exactly the flips of the dark-mode switch (whether or
    not the position changes) and the presses of the about row, in
    order, each with its own fixed dialog; and [goBack] is called once
    per press of the back button and by nothing else. *)
Theorem settings_dialogs_and_navigation (s : SettingsScreen.Screen)
  (actions : list SettingsScreen.Action) :
  let s' := SettingsScreen.run s actions in
  SettingsScreen.dialogs s' =
    SettingsScreen.dialogs s
    ++ map settingsDialogOf (filter SettingsScreen.raisesDialog actions)
  /\ SettingsScreen.goBacks s' =
     (SettingsScreen.goBacks s
      + List.length (filter SettingsScreen.isBack actions))%nat.
Proof.
  revert s; induction actions as [|a actions IH]; intros s.
  - simpl. rewrite app_nil_r. split; [reflexivity | lia].
  - cbv zeta. unfold SettingsScreen.run; simpl fold_left.
    fold (SettingsScreen.run (SettingsScreen.act s a) actions).
    destruct (IH (SettingsScreen.act s a)) as [-> ->].
    destruct (act_effects s a) as [-> ->].
    simpl filter.
    destruct (SettingsScreen.raisesDialog a), (SettingsScreen.isBack a);
      simpl; rewrite <- ?app_assoc, ?app_nil_r; split; try reflexivity; lia.
Qed.

Example settings_session :
  let s := SettingsScreen.run SettingsScreen.mounted
             [SettingsScreen.Flip (lit "dark-mode") true;
              SettingsScreen.Flip (lit "gpt-mode") false;
              SettingsScreen.Press (lit "about");
              SettingsScreen.Press (lit "dark-mode");
              SettingsScreen.Back] in
  SettingsScreen.dialogs s
    = [SettingsScreen.themeDialog; SettingsScreen.aboutDialog]
  /\ SettingsScreen.gptMode s = false
  /\ SettingsScreen.darkMode s = true
  /\ SettingsScreen.goBacks s = 1%nat.
Proof. repeat split. Qed.

(* ================================================================== *)
(** ** The first version of the chat screen *)

Section LegacyFacts.

Import LegacyEvents.

Lemma legacy_step_effects (s : LegacyChatScreen.State) (e : Event) :
  LegacyChatScreen.posted (step s e) =
    LegacyChatScreen.posted s
    ++ (if isPress e then [LegacyChatScreen.message s] else [])
  /\ (isChange e = false ->
      LegacyChatScreen.message (step s e) = LegacyChatScreen.message s).
Proof.
  destruct e as [text| |[r|]]; simpl; rewrite ?app_nil_r;
    split; try reflexivity; discriminate.
Qed.

Lemma legacy_run_app (s : LegacyChatScreen.State) (a b : list Event) :
  run s (a ++ b) = run (run s a) b.
Proof. apply fold_left_app. Qed.

End LegacyFacts.

(** X14.  The first version of the chat screen has neither validation
    nor a guard: over any sequence of events every press of the send
    button issues a request; pressing and settling never clear or
    change the input; and a text typed and sent twice is posted twice,
    exactly as typed. *)
Theorem legacy_posts_on_every_press (s : LegacyChatScreen.State)
  (events : list LegacyEvents.Event) :
  let s' := LegacyEvents.run s events in
  List.length (LegacyChatScreen.posted s') =
    (List.length (LegacyChatScreen.posted s)
     + List.length (filter LegacyEvents.isPress events))%nat
  /\ (filter LegacyEvents.isChange events = [] ->
      LegacyChatScreen.message s' = LegacyChatScreen.message s)
  /\ (forall text,
        LegacyChatScreen.posted
          (LegacyEvents.run s
             (events ++ [LegacyEvents.ChangeText text;
                         LegacyEvents.PressSend; LegacyEvents.PressSend]))
        = LegacyChatScreen.posted s' ++ [text; text]).
Proof.
  cbv zeta. split; [|split].
  - revert s; induction events as [|e events IH]; intros s; [simpl; lia|].
    unfold LegacyEvents.run; simpl fold_left.
    fold (LegacyEvents.run (LegacyEvents.step s e) events).
    rewrite IH. destruct (legacy_step_effects s e) as [-> _].
    simpl filter. destruct (LegacyEvents.isPress e); simpl;
      rewrite ?length_app; simpl; lia.
  - revert s; induction events as [|e events IH]; intros s H; [reflexivity|].
    unfold LegacyEvents.run; simpl fold_left.
    fold (LegacyEvents.run (LegacyEvents.step s e) events).
    simpl in H. destruct (LegacyEvents.isChange e) eqn:E; [discriminate|].
    rewrite (IH _ H). now apply legacy_step_effects.
  - intros text. rewrite legacy_run_app.
    unfold LegacyEvents.run at 1; simpl.
    now rewrite <- app_assoc.
Qed.

(* ================================================================== *)
(** ** Ids and timestamps *)

Section StampFacts.

Lemma step_stamped (w : World) (e : Event) :
  Stamped w -> Stamped (step w e).
Proof.
  intros (rs & E & F2 & S & B).
  pose proof (step_clock w e) as C.
  unfold Stamped. rewrite step_ids, step_history, E.
  destruct (appended_one w e) as [->|(x & -> & Ix & Lo & _)]; simpl.
  - exists rs. rewrite !app_nil_r. repeat split; auto.
    eapply Forall_impl; [|exact B]. simpl; intros; lia.
  - exists (rs ++ [now w]). rewrite map_app, Ix.
    split; [reflexivity|]. split; [|split].
    + apply Forall2_app; [assumption|]. constructor; [exact Lo | constructor].
    + apply StronglySorted_snoc; assumption.
    + apply Forall_app; split.
      * eapply Forall_impl; [|exact B]. simpl; intros; lia.
      * constructor; [lia | constructor].
Qed.

End StampFacts.

(** X15.  In every reachable state the ids of the log are the decimal
    renderings of clock readings that never decrease along the log
    (the clock not running backwards), and the reading in an entry's id
    is never later than that entry's timestamp. *)
Theorem ids_follow_the_log_order (w : World) :
  Reachable w ->
  exists readings,
    ids w = map toString readings
    /\ Forall2 (fun r x => r <= ChatMessage.timestamp x)
               readings (chatHistory w)
    /\ Sorted Z.le readings.
Proof.
  intros (t0 & events & ->).
  assert (H : Stamped (mount t0)).
  { exists []. repeat split; constructor. }
  assert (G : Stamped (run (mount t0) events)).
  { revert H. generalize (mount t0).
    induction events as [|e events IH]; intros w H; [exact H|].
    rewrite run_cons. apply IH, step_stamped, H. }
  destruct G as (rs & E & F2 & S & _).
  exists rs. repeat split; auto using StronglySorted_Sorted.
Qed.

Lemma ids_follow_the_log_order_witness :
  let w := run (mount 1000)
             (session
                [Send.ok (lit "a") 7 (ChatResponse.mk (Some (lit "b")) None) 2;
                 Send.ok (lit "c") 0 (ChatResponse.mk None None) 0]) in
  Reachable w
  /\ ids w = [lit "1007"; lit "1009"]
  /\ timestamps w = [1009; 1009]
  /\ exists readings, ids w = map toString readings /\ Sorted Z.le readings.
Proof.
  intros w.
  assert (R : Reachable w) by (eexists 1000, _; reflexivity).
  split; [exact R|]. split; [reflexivity|]. split; [reflexivity|].
  destruct (ids_follow_the_log_order w R) as (rs & E & _ & S).
  exists rs. split; assumption.
Defined.

(* ================================================================== *)
(** ** The log when the device clock is set *)

Section WallClock.

Lemma wall_run_cons (w : World) (e : WallEvent) (l : list WallEvent) :
  wall_run w (e :: l) = wall_run (wall_step w e) l.
Proof. reflexivity. Qed.

Lemma wall_run_app (w : World) (a b : list WallEvent) :
  wall_run w (a ++ b) = wall_run (wall_run w a) b.
Proof. apply fold_left_app. Qed.

(** A run without settings of the clock is a run of the screen. *)
Lemma wall_run_screen (events : list Event) (w : World) :
  wall_run w (map OnScreen events) = run w events.
Proof.
  revert w; induction events as [|e events IH]; intros w; [reflexivity|].
  simpl map. rewrite wall_run_cons, run_cons. apply IH.
Qed.

(** The handlers never branch on the clock: what does not come from a
    reading of the clock evolves the same way whatever the clock. *)
Lemma step_core (w1 w2 : World) (e : Event) :
  core w1 = core w2 -> core (step w1 e) = core (step w2 e).
Proof.
  destruct w1 as [m1 c1 l1 h1 n1 p1 po1 a1].
  destruct w2 as [m2 c2 l2 h2 n2 p2 po2 a2].
  unfold core; simpl. intros [= -> -> -> -> -> ->].
  destruct e as [ms|text| |[[body|]|[error|]] gap]; simpl;
    try reflexivity.
  - destruct l2; reflexivity.
  - destruct l2; [reflexivity|].
    unfold ChatScreen.handleSend; simpl.
    destruct (truthy (trim m2)); reflexivity.
  - destruct p2; reflexivity.
  - destruct p2; reflexivity.
  - destruct p2; reflexivity.
  - destruct p2; reflexivity.
Qed.

Lemma core_pending (w1 w2 : World) :
  core w1 = core w2 -> pending w1 = pending w2.
Proof. unfold core; congruence. Qed.

Lemma step_same_but_clock (w1 w2 : World) (e : Event) :
  SameButClock w1 w2 -> SameButClock (step w1 e) (step w2 e).
Proof.
  intros [C H]. split; [now apply step_core|].
  rewrite !step_history. apply Forall2_app; [assumption|].
  unfold appended. rewrite (core_pending w1 w2 C).
  destruct e as [ms|text| |[[body|]|reason] gap]; try constructor.
  destruct (pending w2); constructor; [|constructor].
  simpl; auto.
Qed.

(** Settings of the clock change nothing in a run but what is read
    off the clock. *)
Lemma wall_run_erase (events : list WallEvent) (w1 w2 : World) :
  SameButClock w1 w2 ->
  SameButClock (wall_run w1 events) (run w2 (screen_events events)).
Proof.
  revert w1 w2; induction events as [|e events IH]; intros w1 w2 H;
    [exact H|].
  rewrite wall_run_cons.
  destruct e as [e|t]; simpl screen_events.
  - rewrite run_cons. apply IH, step_same_but_clock, H.
  - apply IH. destruct H as [C F]. split; assumption.
Qed.

Lemma same_but_clock_refl (w : World) : SameButClock w w.
Proof.
  split; [reflexivity|].
  induction (chatHistory w); constructor; auto.
Qed.

Lemma same_but_clock_log (w1 w2 : World) :
  SameButClock w1 w2 ->
  map ChatMessage.message (chatHistory w1)
    = map ChatMessage.message (chatHistory w2)
  /\ map ChatMessage.response (chatHistory w1)
     = map ChatMessage.response (chatHistory w2).
Proof.
  intros [_ F].
  induction F as [|x y l l' [Hm Hr] _ [IHm IHr]]; simpl; [auto|].
  rewrite Hm, Hr, IHm, IHr. auto.
Qed.

Lemma wall_step_history (w : World) (e : WallEvent) :
  exists tail, chatHistory (wall_step w e) = chatHistory w ++ tail.
Proof.
  destruct e as [e|t]; simpl.
  - exists (appended w e). apply step_history.
  - exists []. now rewrite app_nil_r.
Qed.

Lemma wall_run_history (events : list WallEvent) (w : World) :
  exists tail, chatHistory (wall_run w events) = chatHistory w ++ tail.
Proof.
  revert w; induction events as [|e events IH]; intros w.
  - exists []. now rewrite app_nil_r.
  - rewrite wall_run_cons.
    destruct (IH (wall_step w e)) as (tail & ->).
    destruct (wall_step_history w e) as (tail' & ->).
    rewrite <- app_assoc. eauto.
Qed.

(** As long as the clock is not put back the log stays in time
    order. *)
Lemma wall_run_chronological (events : list WallEvent) (w : World) :
  Chronological w -> clock_forward w events = true ->
  Chronological (wall_run w events).
Proof.
  revert w; induction events as [|e events IH]; intros w H F; [exact H|].
  rewrite wall_run_cons.
  simpl in F. apply andb_true_iff in F as [Fe F].
  apply IH; [|exact F].
  destruct e as [e|t]; simpl.
  - now apply step_chronological.
  - destruct H as [S B]. split; [exact S|].
    apply Z.leb_le in Fe.
    eapply Forall_impl; [|exact B]. simpl; intros; lia.
Qed.

(** Each event adds to the ids the rendering of the reading at which
    it creates an exchange, if it creates one. *)
Lemma wall_step_ids (w : World) (e : WallEvent) :
  ids (wall_step w e) =
  ids w ++ map toString (if creates w e then [now w] else []).
Proof.
  destruct e as [e|t]; simpl wall_step.
  - rewrite step_ids. f_equal. unfold appended, creates.
    destruct e as [ms|text| |[[body|]|reason] gap]; try reflexivity.
    destruct (pending w); reflexivity.
  - simpl. now rewrite app_nil_r.
Qed.

Lemma wall_run_ids (events : list WallEvent) (w : World) :
  ids (wall_run w events) =
  ids w ++ map toString (creation_readings w events).
Proof.
  revert w; induction events as [|e events IH]; intros w.
  - simpl. now rewrite app_nil_r.
  - rewrite wall_run_cons, IH, wall_step_ids.
    simpl creation_readings. now rewrite map_app, app_assoc.
Qed.

Lemma NoDup_map_toString_iff (l : list Z) :
  NoDup (map toString l) <-> NoDup l.
Proof.
  split; [apply NoDup_map_inv | apply NoDup_map_toString].
Qed.

End WallClock.

(** C6 as first stated fails: the timestamps are readings of the device
    clock, and when that clock is set back between two answered sends
    the later entry carries the earlier timestamp. *)
Lemma C6_counterexample_clock_set_back :
  let s1 := Send.ok (lit "one") 40 (ChatResponse.mk (Some (lit "uno")) None) 0 in
  let s2 := Send.ok (lit "two") 25 (ChatResponse.mk (Some (lit "due")) None) 0 in
  let events :=
    map OnScreen (Send.events s1) ++ [ClockSet 500]
    ++ map OnScreen (Send.events s2) in
  let w := wall_run (mount 1000) events in
  Forall successful [s1; s2]
  /\ screen_events events = session [s1; s2]
  /\ map ChatMessage.message (chatHistory w) = [lit "one"; lit "two"]
  /\ timestamps w = [1040; 525]
  /\ ~ Sorted Z.le (timestamps w).
Proof.
  intros s1 s2 events w.
  split; [repeat constructor; eexists; reflexivity|].
  split; [reflexivity|]. split; [reflexivity|]. split; [reflexivity|].
  intros S. vm_compute in S.
  inversion S as [|a l _ Hd]; subst.
  inversion Hd as [|b l' Le]; subst.
  vm_compute in Le. apply Le. reflexivity.
Qed.

(** C6, as amended.  After N answered sends, started on the freshly
    mounted screen, the log holds exactly N entries, in the order of
    the sends, whatever happens to the device clock in between; every
    timestamp is at most the next one provided the clock is never set
    back during the session; and no event whatever, a setting of the
    clock included, changes, reorders or removes what the log already
    holds: each event leaves the old log as a prefix of the new one. *)
Theorem C6_log_order_and_timestamps (t0 : Z) (sends : list Send.t)
  (events : list WallEvent) :
  Forall successful sends ->
  screen_events events = session sends ->
  let w := wall_run (mount t0) events in
  List.length (chatHistory w) = List.length sends
  /\ map ChatMessage.message (chatHistory w)
     = map (fun s => trim (Send.text s)) sends
  /\ map ChatMessage.response (chatHistory w)
     = map (fun s => shown (Send.settled s)) sends
  /\ (clock_forward (mount t0) events = true -> Sorted Z.le (timestamps w))
  /\ (forall (w0 : World) (e : WallEvent),
        exists tail, chatHistory (wall_step w0 e) = chatHistory w0 ++ tail)
  /\ (forall (w0 : World) (l : list WallEvent),
        exists tail, chatHistory (wall_run w0 l) = chatHistory w0 ++ tail).
Proof.
  intros F E w; subst w.
  pose proof (wall_run_erase events (mount t0) (mount t0)
                (same_but_clock_refl (mount t0))) as H.
  rewrite E in H.
  destruct (same_but_clock_log _ _ H) as [Hm Hr].
  destruct (session_successful sends (mount t0) (mount_idle t0) F)
    as (tail & Ht & Hm' & Hr' & _).
  simpl in Ht. rewrite Ht in Hm, Hr.
  split; [|split; [|split; [|split; [|split]]]].
  - rewrite <- (length_map ChatMessage.message), Hm, Hm'. apply length_map.
  - now rewrite Hm.
  - now rewrite Hr.
  - intros C. apply StronglySorted_Sorted.
    apply (wall_run_chronological events (mount t0)); [|exact C].
    split; constructor.
  - exact wall_step_history.
  - intros w0 l. apply wall_run_history.
Qed.

Lemma C6_witness :
  let s1 := Send.ok (lit "one") 40 (ChatResponse.mk (Some (lit "uno")) None) 0 in
  let s2 := Send.ok (lit " two ") 25 (ChatResponse.mk None None) 1 in
  let events :=
    map OnScreen (Send.events s1) ++ [ClockSet 2000]
    ++ map OnScreen (Send.events s2) in
  let w := wall_run (mount 1000) events in
  Forall successful [s1; s2]
  /\ screen_events events = session [s1; s2]
  /\ clock_forward (mount 1000) events = true
  /\ map ChatMessage.message (chatHistory w) = [lit "one"; lit "two"]
  /\ timestamps w = [1040; 2026]
  /\ Sorted Z.le (timestamps w).
Proof.
  intros s1 s2 events w.
  assert (F : Forall successful [s1; s2])
    by (repeat constructor; eexists; reflexivity).
  assert (E : screen_events events = session [s1; s2]) by reflexivity.
  assert (C : clock_forward (mount 1000) events = true) by reflexivity.
  split; [exact F|]. split; [exact E|]. split; [exact C|].
  destruct (C6_log_order_and_timestamps 1000 [s1; s2] events F E)
    as (_ & M & _ & S & _).
  split; [exact M|]. split; [reflexivity|]. exact (S C).
Defined.

(** C8, as amended.  Every exchange is assigned, at creation, the
    decimal rendering of the reading of the device clock at that moment
    as its id, whatever the events of the screen and the settings of
    the clock.  So two entries of the log have the same id exactly when
    they were created at the same reading: the ids of the log are
    pairwise different if and only if the readings at which its entries
    were created are pairwise different. *)
Theorem C8_ids_render_creation_readings (t0 : Z) (events : list WallEvent) :
  let w := wall_run (mount t0) events in
  let readings := creation_readings (mount t0) events in
  ids w = map toString readings
  /\ List.length readings = List.length (chatHistory w)
  /\ (forall i j a b,
        nth_error readings i = Some a -> nth_error readings j = Some b ->
        (nth_error (ids w) i = nth_error (ids w) j <-> a = b))
  /\ (NoDup (ids w) <-> NoDup readings).
Proof.
  cbv zeta.
  pose proof (wall_run_ids events (mount t0)) as H. simpl in H.
  split; [exact H|]. split; [|split].
  - apply (f_equal (@List.length _)) in H.
    unfold ids in H. rewrite !length_map in H. congruence.
  - intros i j a b Ha Hb. rewrite H.
    rewrite !nth_error_map, Ha, Hb. simpl.
    split; [intros [= E]; now apply toString_inj | congruence].
  - rewrite H. apply NoDup_map_toString_iff.
Qed.

Example ids_after_clock_set_back :
  let body := ChatResponse.mk (Some (lit "ok")) None in
  let events :=
    map OnScreen (Send.events (Send.ok (lit "a") 40 body 0))
    ++ [ClockSet 1015]
    ++ map OnScreen (Send.events (Send.ok (lit "b") 25 body 0)) in
  creation_readings (mount 1000) events = [1040; 1040]
  /\ ids (wall_run (mount 1000) events) = [lit "1040"; lit "1040"].
Proof. split; reflexivity. Qed.
